(** * RC car controller: control link, command codec and camera overlay

    A shallow embedding of the logic of [app/index.tsx]: the endpoint
    clean-up shared by [connectToServer] and [DraggableResizableCamera], the
    WebSocket life cycle with its reconnect timer, the command encoding of
    [sendCommand] and the drag/resize handlers of the camera overlay.

    Conventions.
    - A JavaScript string is the list of its UTF-16 code units ([list N]);
      [str] turns a literal into that representation.
    - JavaScript numbers are modelled as integers ([Z]); every property
      below depends only on their order and on integer arithmetic.
    - React state updates, updater callbacks and effects are run atomically
      in program order.  A callback created by [useCallback] or stored in a
      timer keeps the [piIP] of the render that created it; the model keeps
      that captured value next to each timer and each socket. *)

From stdpp Require Import strings gmap list.
From Stdlib Require Import ZArith NArith Lia.

Local Open Scope Z_scope.

(* ================================================================== *)
(** * Part I. Definitions *)
(* ================================================================== *)

(** ** JavaScript strings *)

Abbreviation jsstring := (list N).

Definition str (s : string) : jsstring :=
  map Ascii.N_of_ascii (String.list_ascii_of_string s).

(** [String.prototype.trim]: the code units of ECMAScript [WhiteSpace] and
    [LineTerminator]. *)
Definition is_whitespace (c : N) : bool :=
  ((9 <=? c) && (c <=? 13) || (c =? 32) || (c =? 160) || (c =? 0x1680)
   || (0x2000 <=? c) && (c <=? 0x200A) || (c =? 0x2028) || (c =? 0x2029)
   || (c =? 0x202F) || (c =? 0x205F) || (c =? 0x3000) || (c =? 0xFEFF))%N.

Fixpoint dropWhile {A} (p : A -> bool) (l : list A) : list A :=
  match l with
  | [] => []
  | c :: r => if p c then dropWhile p r else l
  end.

Fixpoint takeWhile {A} (p : A -> bool) (l : list A) : list A :=
  match l with
  | [] => []
  | c :: r => if p c then c :: takeWhile p r else []
  end.

Definition trimStart (s : jsstring) : jsstring := dropWhile is_whitespace s.
Definition trimEnd (s : jsstring) : jsstring := rev (dropWhile is_whitespace (rev s)).
Definition trim (s : jsstring) : jsstring := trimEnd (trimStart s).

(** Case folding of a regular expression with the [i] flag and without the
    [u] flag: a code unit matches an ASCII letter of the pattern exactly
    when it is that letter in either case. *)
Definition fold_case (c : N) : N :=
  (if (65 <=? c) && (c <=? 90) then c + 32 else c)%N.

(** [drop_prefix_ci p s]: the rest of [s] after a case-insensitive match of
    the literal [p] at its start. *)
Fixpoint drop_prefix_ci (p s : jsstring) : option jsstring :=
  match p, s with
  | [], _ => Some s
  | _ :: _, [] => None
  | a :: p', b :: s' =>
      if (fold_case a =? fold_case b)%N then drop_prefix_ci p' s' else None
  end.

(** [s.replace(/^(NAMEs?:\/\/)/i, '')] for [NAME] = [http] or [ws]: the
    optional [s] is tried first, then skipped. *)
Definition strip_scheme (name s : jsstring) : jsstring :=
  match drop_prefix_ci name s with
  | None => s
  | Some r =>
      match drop_prefix_ci (str "s://") r with
      | Some r' => r'
      | None =>
          match drop_prefix_ci (str "://") r with
          | Some r' => r'
          | None => s
          end
      end
  end.

Definition strip_http : jsstring -> jsstring := strip_scheme (str "http").
Definition strip_wss : jsstring -> jsstring := strip_scheme (str "ws").

Definition is_slash (c : N) : bool := (c =? 47)%N.
Definition is_digit (c : N) : bool := ((48 <=? c) && (c <=? 57))%N.
Definition is_colon (c : N) : bool := (c =? 58)%N.

(** [s.replace(/\/+$/, '')]: the first match is the whole run of slashes
    that ends the string. *)
Definition strip_trailing_slashes (s : jsstring) : jsstring :=
  rev (dropWhile is_slash (rev s)).

(** [s.replace(/:\d+$/, '')]: a colon followed by one or more digits up to
    the end of the string. *)
Definition strip_port (s : jsstring) : jsstring :=
  let r := rev s in
  match takeWhile is_digit r, dropWhile is_digit r with
  | _ :: _, c :: rest => if is_colon c then rev rest else s
  | _, _ => s
  end.

Fixpoint starts_with (p s : jsstring) : bool :=
  match p, s with
  | [], _ => true
  | _ :: _, [] => false
  | a :: p', b :: s' => (a =? b)%N && starts_with p' s'
  end.

(** [s.includes(p)] *)
Fixpoint includes (s p : jsstring) : bool :=
  starts_with p s ||
  match s with
  | [] => false
  | _ :: s' => includes s' p
  end.

(** ** Endpoint resolution *)

(** The three-way test of both [connectToServer] and
    [DraggableResizableCamera]. *)
Definition isNgrok (cleanIP : jsstring) : bool :=
  includes cleanIP (str ".ngrok-free.dev")
  || includes cleanIP (str ".ngrok-free.app")
  || includes cleanIP (str ".ngrok.").

(** [cleanIP] of [connectToServer] (lines 146-149): trimmed first. *)
Definition cleanIP_control (piIP : jsstring) : jsstring :=
  strip_trailing_slashes (strip_wss (strip_http (trim piIP))).

(** [cleanIP] of [DraggableResizableCamera] (line 879): no [trim]. *)
Definition cleanIP_camera (piIP : jsstring) : jsstring :=
  strip_trailing_slashes (strip_wss (strip_http piIP)).

(** [url] of [connectToServer] (lines 153-161). *)
Definition controlUrl (piIP : jsstring) : jsstring :=
  let cleanIP := cleanIP_control piIP in
  if isNgrok cleanIP then str "wss://" ++ strip_port cleanIP
  else if includes cleanIP (str ":") then str "ws://" ++ cleanIP
  else str "ws://" ++ cleanIP ++ str ":8765".

(** [cameraUrl] of [DraggableResizableCamera] (lines 883-891). *)
Definition cameraUrl (piIP : jsstring) : jsstring :=
  let cleanIP := cleanIP_camera piIP in
  if isNgrok cleanIP then str "https://" ++ strip_port cleanIP ++ str "/camera"
  else if includes cleanIP (str ":") then str "http://" ++ cleanIP ++ str "/camera"
  else str "http://" ++ cleanIP ++ str ":8765/camera".

(** [!piIP || piIP.trim() === ""], the guard that opens [connectToServer]. *)
Definition isBlank (piIP : jsstring) : bool :=
  match trim piIP with [] => true | _ :: _ => false end.

Record EndpointDescriptor := {
  controlURL : jsstring;
  mediaBaseURL : jsstring
}.

(** The two addresses in use for a stored endpoint string that
    [connectToServer] accepts.  For a string that is blank after trimming
    [connectToServer] computes no address and [resolve] gives [None]; the
    camera component applies [cameraUrl] to such a string all the same when
    it is not empty (line 594). *)
Definition resolve (raw : jsstring) : option EndpointDescriptor :=
  if isBlank raw then None
  else Some {| controlURL := controlUrl raw; mediaBaseURL := cameraUrl raw |}.

(** The prefixes that the two replacements remove, in lower case. *)
Definition scheme_prefixes : list jsstring :=
  [ str "http://"; str "https://"; str "ws://"; str "wss://" ].

(** [p] is one of these prefixes, written in any letter case. *)
Definition is_scheme_prefix (p : jsstring) : Prop :=
  map fold_case p ∈ scheme_prefixes.

Definition begins_ci (p s : jsstring) : bool :=
  match drop_prefix_ci p s with Some _ => true | None => false end.

(** [h] begins, in any letter case, with a scheme name and a colon. *)
Definition has_scheme (h : jsstring) : bool :=
  begins_ci (str "http:") h || begins_ci (str "https:") h
  || begins_ci (str "ws:") h || begins_ci (str "wss:") h.

(** ** Wire messages *)

(** The values that occur in the object literals handed to
    [JSON.stringify]. *)
Inductive JSValue :=
| JSNum (n : Z)
| JSBool (b : bool)
| JSStr (s : jsstring).

(** An object literal: its properties in source order. *)
Abbreviation Message := (list (jsstring * JSValue)).

Fixpoint field (k : jsstring) (m : Message) : option JSValue :=
  match m with
  | [] => None
  | (k', v) :: r => if decide (k' = k) then Some v else field k r
  end.

(** ** Application state *)

(** [type Gear = 1 | 2 | 3] *)
Inductive Gear := Gear1 | Gear2 | Gear3.

#[global] Instance Gear_eq_dec : EqDecision Gear.
Proof. solve_decision. Defined.

Definition gear_number (g : Gear) : Z :=
  match g with Gear1 => 1 | Gear2 => 2 | Gear3 => 3 end.

Record Controls := {
  throttle : Z;
  brake : Z;
  steering : Z;
  gear : Gear;
  honkPressed : bool;
  lightsOn : bool;
  autoMode : bool
}.

(** [WebSocket.readyState] *)
Inductive ReadyState := CONNECTING | OPEN | CLOSING | CLOSED.

#[global] Instance ReadyState_eq_dec : EqDecision ReadyState.
Proof. solve_decision. Defined.

(** A socket made by [new WebSocket(url)], with the [piIP] its handlers
    have captured ([cleanIP] and the [connectToServer] they call). *)
Record Socket := {
  readyState : ReadyState;
  socket_url : jsstring;
  socket_piIP : jsstring
}.

(** The two [setTimeout] callbacks of the component: the reconnect of
    [ws.onclose] (lines 213-216), which clears [reconnectTimeoutRef] and
    calls [connectToServer], and the delayed [connectToServer] of
    [handleSaveSettings] (lines 308-310). *)
Inductive TimerKind := ReconnectTimer | SaveSettingsTimer.

#[global] Instance TimerKind_eq_dec : EqDecision TimerKind.
Proof. solve_decision. Defined.

Record Timer := {
  timer_kind : TimerKind;
  timer_delay : Z;
  timer_piIP : jsstring
}.

(** The texts given to [setConnectionError]. *)
Inductive ConnectionError :=
| NoError                  (* "" *)
| PleaseSetIP              (* "Please set Raspberry Pi IP address in settings" *)
| NgrokConnectionFailed    (* "ngrok connection failed. Is Python server running?" *)
| ConnectionFailedServer   (* "Connection failed. Is the server running?" *)
| ClosedNormally           (* "Connection closed normally" *)
| ClosedWithCode (code : Z)(* `Connection closed (code: ${event.code})` *)
| FailedAfter5             (* "Failed after 5 attempts. Check settings and restart server." *)
| UnableNgrok              (* "Unable to connect to ngrok server" *)
| ConnectionFailed         (* "Connection failed" *)
| IPEmpty                  (* "IP address cannot be empty" *)
| FailedToCreateConnection. (* "Failed to create connection" *)

Record App := {
  controls : Controls;
  piIP : jsstring;
  isConnected : bool;
  connectionError : ConnectionError;
  connectionAttempts : Z;
  (* every socket created so far; [wsRef.current] is an index into it *)
  sockets : list Socket;
  wsRef : option nat;
  (* the timers of the runtime that have neither fired nor been cleared *)
  timers : gmap nat Timer;
  next_timer : nat;
  reconnectTimeoutRef : option nat;
  (* the messages given to [wsRef.current.send], oldest first *)
  sent : list Message
}.

Definition initial_controls : Controls :=
  {| throttle := 0; brake := 0; steering := 0; gear := Gear1;
     honkPressed := false; lightsOn := false; autoMode := false |}.

(** The state after the first render: [DEFAULT_IP] is [""], timer
    identifiers are positive. *)
Definition initial : App :=
  {| controls := initial_controls; piIP := []; isConnected := false;
     connectionError := NoError; connectionAttempts := 0;
     sockets := []; wsRef := None; timers := ∅; next_timer := 1;
     reconnectTimeoutRef := None; sent := [] |}.

Definition set_controls (c : Controls) (s : App) : App :=
  {| controls := c; piIP := piIP s; isConnected := isConnected s;
     connectionError := connectionError s;
     connectionAttempts := connectionAttempts s; sockets := sockets s;
     wsRef := wsRef s; timers := timers s; next_timer := next_timer s;
     reconnectTimeoutRef := reconnectTimeoutRef s; sent := sent s |}.

Definition set_piIP (ip : jsstring) (s : App) : App :=
  {| controls := controls s; piIP := ip; isConnected := isConnected s;
     connectionError := connectionError s;
     connectionAttempts := connectionAttempts s; sockets := sockets s;
     wsRef := wsRef s; timers := timers s; next_timer := next_timer s;
     reconnectTimeoutRef := reconnectTimeoutRef s; sent := sent s |}.

Definition setIsConnected (b : bool) (s : App) : App :=
  {| controls := controls s; piIP := piIP s; isConnected := b;
     connectionError := connectionError s;
     connectionAttempts := connectionAttempts s; sockets := sockets s;
     wsRef := wsRef s; timers := timers s; next_timer := next_timer s;
     reconnectTimeoutRef := reconnectTimeoutRef s; sent := sent s |}.

Definition setConnectionError (e : ConnectionError) (s : App) : App :=
  {| controls := controls s; piIP := piIP s; isConnected := isConnected s;
     connectionError := e;
     connectionAttempts := connectionAttempts s; sockets := sockets s;
     wsRef := wsRef s; timers := timers s; next_timer := next_timer s;
     reconnectTimeoutRef := reconnectTimeoutRef s; sent := sent s |}.

Definition setConnectionAttempts (n : Z) (s : App) : App :=
  {| controls := controls s; piIP := piIP s; isConnected := isConnected s;
     connectionError := connectionError s;
     connectionAttempts := n; sockets := sockets s;
     wsRef := wsRef s; timers := timers s; next_timer := next_timer s;
     reconnectTimeoutRef := reconnectTimeoutRef s; sent := sent s |}.

Definition set_sockets (l : list Socket) (s : App) : App :=
  {| controls := controls s; piIP := piIP s; isConnected := isConnected s;
     connectionError := connectionError s;
     connectionAttempts := connectionAttempts s; sockets := l;
     wsRef := wsRef s; timers := timers s; next_timer := next_timer s;
     reconnectTimeoutRef := reconnectTimeoutRef s; sent := sent s |}.

Definition set_wsRef (r : option nat) (s : App) : App :=
  {| controls := controls s; piIP := piIP s; isConnected := isConnected s;
     connectionError := connectionError s;
     connectionAttempts := connectionAttempts s; sockets := sockets s;
     wsRef := r; timers := timers s; next_timer := next_timer s;
     reconnectTimeoutRef := reconnectTimeoutRef s; sent := sent s |}.

Definition set_timers (m : gmap nat Timer) (n : nat) (s : App) : App :=
  {| controls := controls s; piIP := piIP s; isConnected := isConnected s;
     connectionError := connectionError s;
     connectionAttempts := connectionAttempts s; sockets := sockets s;
     wsRef := wsRef s; timers := m; next_timer := n;
     reconnectTimeoutRef := reconnectTimeoutRef s; sent := sent s |}.

Definition set_reconnectTimeoutRef (r : option nat) (s : App) : App :=
  {| controls := controls s; piIP := piIP s; isConnected := isConnected s;
     connectionError := connectionError s;
     connectionAttempts := connectionAttempts s; sockets := sockets s;
     wsRef := wsRef s; timers := timers s; next_timer := next_timer s;
     reconnectTimeoutRef := r; sent := sent s |}.

Definition set_sent (l : list Message) (s : App) : App :=
  {| controls := controls s; piIP := piIP s; isConnected := isConnected s;
     connectionError := connectionError s;
     connectionAttempts := connectionAttempts s; sockets := sockets s;
     wsRef := wsRef s; timers := timers s; next_timer := next_timer s;
     reconnectTimeoutRef := reconnectTimeoutRef s; sent := l |}.

(** [setTimeout(callback, delay)]: registers the timer and returns its
    identifier. *)
Definition setTimeout (t : Timer) (s : App) : nat * App :=
  (next_timer s, set_timers (<[next_timer s := t]> (timers s)) (S (next_timer s)) s).

(** [clearTimeout(id)] *)
Definition clearTimeout (id : nat) (s : App) : App :=
  set_timers (delete id (timers s)) (next_timer s) s.

(** [wsRef.current?.readyState] *)
Definition current_readyState (s : App) : option ReadyState :=
  i ← wsRef s; readyState <$> sockets s !! i.

Definition set_readyState (r : ReadyState) (k : Socket) : Socket :=
  {| readyState := r; socket_url := socket_url k; socket_piIP := socket_piIP k |}.

(** [ws.close()]: a socket that is connecting or open starts closing, its
    [onclose] handler runs later; a closing or closed socket is left as it
    is. *)
Definition socket_close (k : Socket) : Socket :=
  match readyState k with
  | CONNECTING | OPEN => set_readyState CLOSING k
  | CLOSING | CLOSED => k
  end.

(** ** The control link (lines 128-311) *)

(** What [new WebSocket(url)] (line 167) does: it returns a socket, which
    is connecting, or it throws, as the constructor of a browser does for an
    address it cannot parse.  Which of the two happens is decided by the
    platform, not by the component. *)
Inductive Construction := Returns | Throws.

(** [connectToServer] (lines 128-264) as created by the render whose [piIP]
    is [ip], for either outcome of the constructor.  The attempt is counted
    before the constructor is called; when it throws, the [catch] branch
    (lines 259-263) runs and [wsRef.current] is not assigned. *)
Definition connectToServer_with (c : Construction) (ip : jsstring) (s : App)
  : App :=
  if isBlank ip then setConnectionError PleaseSetIP s
  else
    match current_readyState s with
    | Some CONNECTING | Some OPEN => s
    | _ =>
        match reconnectTimeoutRef s with
        | Some _ => s
        | None =>
            let url := controlUrl ip in
            let s1 := setConnectionAttempts (connectionAttempts s + 1) s in
            match c with
            | Returns =>
                let ws := {| readyState := CONNECTING; socket_url := url;
                             socket_piIP := ip |} in
                set_wsRef (Some (length (sockets s1)))
                          (set_sockets (sockets s1 ++ [ws]) s1)
            | Throws =>
                setConnectionError FailedToCreateConnection
                  (setIsConnected false s1)
            end
        end
    end.

(** [connectToServer] when the constructor returns: this is
    [connectToServer_with Returns], written out. *)
Definition connectToServer (ip : jsstring) (s : App) : App :=
  if isBlank ip then setConnectionError PleaseSetIP s
  else
    match current_readyState s with
    | Some CONNECTING | Some OPEN => s
    | _ =>
        match reconnectTimeoutRef s with
        | Some _ => s
        | None =>
            let url := controlUrl ip in
            let s1 := setConnectionAttempts (connectionAttempts s + 1) s in
            let ws := {| readyState := CONNECTING; socket_url := url;
                         socket_piIP := ip |} in
            set_wsRef (Some (length (sockets s1)))
                      (set_sockets (sockets s1 ++ [ws]) s1)
        end
    end.

(** The state after [connectToServer] has created a socket. *)
Definition attempted (ip : jsstring) (s : App) : App :=
  set_wsRef (Some (length (sockets s)))
    (set_sockets (sockets s ++ [{| readyState := CONNECTING;
                                   socket_url := controlUrl ip;
                                   socket_piIP := ip |}])
       (setConnectionAttempts (connectionAttempts s + 1) s)).

(** [ws.onopen] of socket [id] (lines 169-178); the transport opens a
    socket only while it is connecting. *)
Definition ws_onopen (id : nat) (s : App) : App :=
  match sockets s !! id with
  | Some k =>
      match readyState k with
      | CONNECTING =>
          let s1 := set_sockets (<[id := set_readyState OPEN k]> (sockets s)) s in
          let s2 := setConnectionAttempts 0
                      (setConnectionError NoError (setIsConnected true s1)) in
          match reconnectTimeoutRef s2 with
          | Some t => set_reconnectTimeoutRef None (clearTimeout t s2)
          | None => s2
          end
      | _ => s
      end
  | None => s
  end.

(** [backoffDelay] (line 211) *)
Definition backoffDelay (currentAttempts : Z) : Z :=
  Z.min (3000 + currentAttempts * 2000) 15000.

(** [ws.onclose] of socket [id] with [event.code = code] (lines 193-226);
    a socket closes once. *)
Definition ws_onclose (id : nat) (code : Z) (s : App) : App :=
  match sockets s !! id with
  | Some k =>
      match readyState k with
      | CLOSED => s
      | _ =>
          let cleanIP := cleanIP_control (socket_piIP k) in
          let s1 := set_sockets (<[id := set_readyState CLOSED k]> (sockets s)) s in
          let s2 := setIsConnected false s1 in
          let s3 :=
            setConnectionError
              (if code =? 1006 then
                 if includes cleanIP (str ".ngrok") then NgrokConnectionFailed
                 else ConnectionFailedServer
               else if code =? 1000 then ClosedNormally
               else ClosedWithCode code) s2 in
          let currentAttempts := connectionAttempts s3 in
          if bool_decide (reconnectTimeoutRef s3 = None) && (currentAttempts <? 5)
          then
            let '(t, s4) :=
              setTimeout {| timer_kind := ReconnectTimer;
                            timer_delay := backoffDelay currentAttempts;
                            timer_piIP := socket_piIP k |} s3 in
            set_reconnectTimeoutRef (Some t) s4
          else if 5 <=? currentAttempts then setConnectionError FailedAfter5 s3
          else s3
      end
  | None => s
  end.

(** [ws.onerror] of socket [id] (lines 228-256) *)
Definition ws_onerror (id : nat) (s : App) : App :=
  match sockets s !! id with
  | Some k =>
      match readyState k with
      | CLOSED => s
      | _ =>
          let cleanIP := cleanIP_control (socket_piIP k) in
          setIsConnected false
            (setConnectionError
               (if includes cleanIP (str ".ngrok") then UnableNgrok
                else ConnectionFailed) s)
      end
  | None => s
  end.

(** A pending timer fires: the runtime forgets it and runs its callback,
    in which the constructor has outcome [c]. *)
Definition timer_fire_with (c : Construction) (t : nat) (s : App) : App :=
  match timers s !! t with
  | None => s
  | Some tm =>
      let s1 := set_timers (delete t (timers s)) (next_timer s) s in
      match timer_kind tm with
      | ReconnectTimer =>
          connectToServer_with c (timer_piIP tm) (set_reconnectTimeoutRef None s1)
      | SaveSettingsTimer => connectToServer_with c (timer_piIP tm) s1
      end
  end.

(** The same when the constructor returns. *)
Definition timer_fire (t : nat) (s : App) : App :=
  match timers s !! t with
  | None => s
  | Some tm =>
      let s1 := set_timers (delete t (timers s)) (next_timer s) s in
      match timer_kind tm with
      | ReconnectTimer =>
          connectToServer (timer_piIP tm) (set_reconnectTimeoutRef None s1)
      | SaveSettingsTimer => connectToServer (timer_piIP tm) s1
      end
  end.

(** [disconnectFromServer] (lines 266-276) *)
Definition disconnectFromServer (s : App) : App :=
  let s1 := match reconnectTimeoutRef s with
            | Some t => set_reconnectTimeoutRef None (clearTimeout t s)
            | None => s
            end in
  let s2 := match wsRef s1 with
            | Some i => set_wsRef None
                          (set_sockets (alter socket_close i (sockets s1)) s1)
            | None => s1
            end in
  setConnectionAttempts 0 s2.

(** The clean-up of the connection effect (lines 282-291) *)
Definition effect_cleanup (s : App) : App :=
  let s1 := match reconnectTimeoutRef s with
            | Some t => set_reconnectTimeoutRef None (clearTimeout t s)
            | None => s
            end in
  match wsRef s1 with
  | Some i => set_wsRef None (set_sockets (alter socket_close i (sockets s1)) s1)
  | None => s1
  end.

(** The body of the connection effect (lines 279-281), the constructor
    having outcome [c] *)
Definition effect_connect_with (c : Construction) (s : App) : App :=
  if bool_decide (piIP s <> []) && negb (isConnected s)
     && bool_decide (reconnectTimeoutRef s = None)
  then connectToServer_with c (piIP s) s
  else s.

(** The same when the constructor returns. *)
Definition effect_connect (s : App) : App :=
  if bool_decide (piIP s <> []) && negb (isConnected s)
     && bool_decide (reconnectTimeoutRef s = None)
  then connectToServer (piIP s) s
  else s.

(** [setPiIP(ip)]: when the value changes, the component renders again and
    the effect on [[piIP, connectToServer]] is cleaned up and run anew. *)
Definition setPiIP_with (c : Construction) (ip : jsstring) (s : App) : App :=
  if decide (ip = piIP s) then s
  else effect_connect_with c (effect_cleanup (set_piIP ip s)).

(** The same when the constructor returns. *)
Definition setPiIP (ip : jsstring) (s : App) : App :=
  if decide (ip = piIP s) then s
  else effect_connect (effect_cleanup (set_piIP ip s)).

(** [loadSavedIP] (lines 64-75), [saved] being the stored string if any *)
Definition loadSavedIP_with (c : Construction) (saved : option jsstring)
  (s : App) : App :=
  match saved with
  | Some (a :: r) => setPiIP_with c (a :: r) s
  | _ => s
  end.

(** The same when the constructor returns. *)
Definition loadSavedIP (saved : option jsstring) (s : App) : App :=
  match saved with
  | Some (c :: r) => setPiIP (c :: r) s
  | _ => s
  end.

(** [handleSaveSettings] (lines 295-311).  The delayed call is the
    [connectToServer] of the render in which the handler was created, hence
    with the [piIP] of before the change.  The storage write of [saveIP] and
    the settings dialog ([setShowSettings]) have no effect on the link and
    are left out. *)
Definition handleSaveSettings_with (c : Construction) (tempIP : jsstring)
  (s : App) : App :=
  let trimmedIP := trim tempIP in
  match trimmedIP with
  | [] => setConnectionError IPEmpty s
  | _ :: _ =>
      let s1 := disconnectFromServer s in
      let s2 := setConnectionAttempts 0 s1 in
      let '(_, s3) :=
        setTimeout {| timer_kind := SaveSettingsTimer; timer_delay := 500;
                      timer_piIP := piIP s |} s2 in
      setPiIP_with c trimmedIP s3
  end.

(** The same when the constructor returns. *)
Definition handleSaveSettings (tempIP : jsstring) (s : App) : App :=
  let trimmedIP := trim tempIP in
  match trimmedIP with
  | [] => setConnectionError IPEmpty s
  | _ :: _ =>
      let s1 := disconnectFromServer s in
      let s2 := setConnectionAttempts 0 s1 in
      let '(_, s3) :=
        setTimeout {| timer_kind := SaveSettingsTimer; timer_delay := 500;
                      timer_piIP := piIP s |} s2 in
      setPiIP trimmedIP s3
  end.

(** ** The command codec (lines 313-368) *)

(** The object [{ type, value, gear, lights: lightsOn, auto: autoMode }]
    of [sendCommand] (line 315) *)
Definition command_message (type : jsstring) (value : JSValue) (c : Controls)
  : Message :=
  [ (str "type", JSStr type); (str "value", value);
    (str "gear", JSNum (gear_number (gear c)));
    (str "lights", JSBool (lightsOn c));
    (str "auto", JSBool (autoMode c)) ].

(** The object [{ type: "settings", gear, lights: lightsOn, auto: autoMode }]
    of the settings effect (lines 360-365) *)
Definition settings_message (c : Controls) : Message :=
  [ (str "type", JSStr (str "settings"));
    (str "gear", JSNum (gear_number (gear c)));
    (str "lights", JSBool (lightsOn c));
    (str "auto", JSBool (autoMode c)) ].

(** [sendCommand(type, value)] (lines 313-319) *)
Definition sendCommand (type : jsstring) (value : JSValue) (s : App) : App :=
  match current_readyState s with
  | Some OPEN => set_sent (sent s ++ [command_message type value (controls s)]) s
  | _ => s
  end.

Definition setThrottle (v : Z) (s : App) : App :=
  let c := controls s in
  set_controls {| throttle := v; brake := brake c; steering := steering c;
                  gear := gear c; honkPressed := honkPressed c;
                  lightsOn := lightsOn c; autoMode := autoMode c |} s.

Definition setBrake (v : Z) (s : App) : App :=
  let c := controls s in
  set_controls {| throttle := throttle c; brake := v; steering := steering c;
                  gear := gear c; honkPressed := honkPressed c;
                  lightsOn := lightsOn c; autoMode := autoMode c |} s.

Definition setSteering (v : Z) (s : App) : App :=
  let c := controls s in
  set_controls {| throttle := throttle c; brake := brake c; steering := v;
                  gear := gear c; honkPressed := honkPressed c;
                  lightsOn := lightsOn c; autoMode := autoMode c |} s.

Definition setHonkPressed (b : bool) (s : App) : App :=
  let c := controls s in
  set_controls {| throttle := throttle c; brake := brake c;
                  steering := steering c; gear := gear c; honkPressed := b;
                  lightsOn := lightsOn c; autoMode := autoMode c |} s.

Definition handleThrottleChange (value : Z) (s : App) : App :=
  let s := setThrottle value s in
  if 0 <=? value then
    sendCommand (str "throttle_backward") (JSNum 0)
      (sendCommand (str "throttle_forward") (JSNum value) s)
  else
    sendCommand (str "throttle_backward") (JSNum (Z.abs value))
      (sendCommand (str "throttle_forward") (JSNum 0) s).

Definition handleBrakeChange (value : Z) (s : App) : App :=
  sendCommand (str "brake") (JSNum value) (setBrake value s).

Definition handleSteeringChange (value : Z) (s : App) : App :=
  let s := setSteering value s in
  if 0 <=? value then
    sendCommand (str "steering_left") (JSNum 0)
      (sendCommand (str "steering_right") (JSNum value) s)
  else
    sendCommand (str "steering_left") (JSNum (Z.abs value))
      (sendCommand (str "steering_right") (JSNum 0) s).

Definition handleHonkPress (s : App) : App :=
  sendCommand (str "honk") (JSBool true) (setHonkPressed true s).

Definition handleHonkRelease (s : App) : App :=
  sendCommand (str "honk") (JSBool false) (setHonkPressed false s).

(** The body of the effect on [[gear, lightsOn, autoMode]] (lines 358-368) *)
Definition settings_effect (s : App) : App :=
  match current_readyState s with
  | Some OPEN => set_sent (sent s ++ [settings_message (controls s)]) s
  | _ => s
  end.

(** [setGear(g)] (line 519): the effect runs when the value changes. *)
Definition setGear (g : Gear) (s : App) : App :=
  let c := controls s in
  if decide (g = gear c) then s
  else settings_effect
         (set_controls {| throttle := throttle c; brake := brake c;
                          steering := steering c; gear := g;
                          honkPressed := honkPressed c;
                          lightsOn := lightsOn c; autoMode := autoMode c |} s).

(** [setLightsOn(!lightsOn)] (line 555) *)
Definition toggleLights (s : App) : App :=
  let c := controls s in
  settings_effect
    (set_controls {| throttle := throttle c; brake := brake c;
                     steering := steering c; gear := gear c;
                     honkPressed := honkPressed c;
                     lightsOn := negb (lightsOn c); autoMode := autoMode c |} s).

(** [setAutoMode(!autoMode)] (line 574) *)
Definition toggleAuto (s : App) : App :=
  let c := controls s in
  settings_effect
    (set_controls {| throttle := throttle c; brake := brake c;
                     steering := steering c; gear := gear c;
                     honkPressed := honkPressed c;
                     lightsOn := lightsOn c; autoMode := negb (autoMode c) |} s).

(** ** Runs of the application *)

(** What can happen to the component: the user's actions, the end of the
    asynchronous storage read, a timer that fires and the events of the
    sockets. *)
Inductive Event :=
| LoadSavedIP (saved : option jsstring)
| SaveSettings (tempIP : jsstring)
| TimerFires (t : nat)
| SocketOpens (id : nat)
| SocketCloses (id : nat) (code : Z)
| SocketFails (id : nat)
| ThrottleChange (value : Z)
| BrakeChange (value : Z)
| SteeringChange (value : Z)
| HonkPress
| HonkRelease
| SelectGear (g : Gear)
| PressLights
| PressAuto.

Definition step (e : Event) (s : App) : App :=
  match e with
  | LoadSavedIP saved => loadSavedIP saved s
  | SaveSettings tempIP => handleSaveSettings tempIP s
  | TimerFires t => timer_fire t s
  | SocketOpens id => ws_onopen id s
  | SocketCloses id code => ws_onclose id code s
  | SocketFails id => ws_onerror id s
  | ThrottleChange v => handleThrottleChange v s
  | BrakeChange v => handleBrakeChange v s
  | SteeringChange v => handleSteeringChange v s
  | HonkPress => handleHonkPress s
  | HonkRelease => handleHonkRelease s
  | SelectGear g => setGear g s
  | PressLights => toggleLights s
  | PressAuto => toggleAuto s
  end.

(** The step of an event during which the constructor, if it is called,
    has outcome [c]; [step] is the case in which it returns. *)
Definition step_with (c : Construction) (e : Event) (s : App) : App :=
  match e with
  | LoadSavedIP saved => loadSavedIP_with c saved s
  | SaveSettings tempIP => handleSaveSettings_with c tempIP s
  | TimerFires t => timer_fire_with c t s
  | _ => step e s
  end.

(** The state after the events of [es], first event first. *)
Definition run (es : list Event) (s : App) : App :=
  foldl (fun s e => step e s) s es.

(** The states the component can be in, whatever the constructor does. *)
Inductive reachable : App -> Prop :=
| reachable_initial : reachable initial
| reachable_step e s : reachable s -> reachable (step e s)
| reachable_step_with c e s : reachable s -> reachable (step_with c e s).

(** The [type] values that the handlers give to [sendCommand]. *)
Definition command_kinds : list jsstring :=
  [ str "throttle_forward"; str "throttle_backward"; str "brake";
    str "steering_right"; str "steering_left"; str "honk" ].

(** The two shapes of message the component sends: the object of
    [sendCommand], with a number or a boolean as [value], and the object of
    the settings effect. *)
Inductive core_message : Message -> Prop :=
| core_command_number kind n c :
    kind ∈ command_kinds -> core_message (command_message kind (JSNum n) c)
| core_command_boolean kind b c :
    kind ∈ command_kinds -> core_message (command_message kind (JSBool b) c)
| core_settings c : core_message (settings_message c).

(** The transport reports the failure of the current socket: its [onerror]
    handler runs, then its [onclose] handler with the close code. *)
Definition attempt_fails (code : Z) (s : App) : App :=
  match wsRef s with
  | Some id => ws_onclose id code (ws_onerror id s)
  | None => s
  end.

(** The timer held in [reconnectTimeoutRef], if any, fires. *)
Definition reconnect_fires (s : App) : App :=
  match reconnectTimeoutRef s with
  | Some t => timer_fire t s
  | None => s
  end.

(** Consecutive failures, each followed by the reconnect it has scheduled;
    no socket opens in between. *)
Definition failed_attempts (codes : list Z) (s : App) : App :=
  foldl (fun s code => reconnect_fires (attempt_fails code s)) s codes.

(** A connection attempt is under way: the current socket is connecting and
    no reconnect is scheduled. *)
Definition connecting (s : App) : Prop :=
  current_readyState s = Some CONNECTING /\ reconnectTimeoutRef s = None.

(** What the handlers maintain: timer identifiers are fresh, a pending
    reconnect timer is the one held in [reconnectTimeoutRef], and the
    address captured by a reconnect timer or a socket is not blank. *)
Definition link_invariant (s : App) : Prop :=
  (forall t tm, timers s !! t = Some tm -> (t < next_timer s)%nat)
  /\ (forall t tm, timers s !! t = Some tm -> timer_kind tm = ReconnectTimer ->
                   reconnectTimeoutRef s = Some t
                   /\ isBlank (timer_piIP tm) = false)
  /\ Forall (fun k => isBlank (socket_piIP k) = false) (sockets s).

(** The reconnect timers that are pending. *)
Definition pending_reconnects (s : App) : gmap nat Timer :=
  filter (fun kv => timer_kind kv.2 = ReconnectTimer) (timers s).

(** ** The camera overlay (lines 43-44, 110-126, 598-606, 899-951) *)

(** [const { width, height } = Dimensions.get("window")] (line 22) *)
Record Window := { width : Z; height : Z }.

Record Position := { x : Z; y : Z }.
Record Size := { sz_width : Z; sz_height : Z }.

(** The calls of [AsyncStorage.setItem] made by [saveCameraPosition]
    (key ['camera_position']) and [saveCameraSize] (key ['camera_size']). *)
Inductive StorageWrite :=
| WriteCameraPosition (pos : Position)
| WriteCameraSize (size : Size).

(** The state of the parent ([cameraPosition], [cameraSize],
    [isFullscreen]), of the overlay component ([isResizing],
    [initialSize.current], the offset and value of the animated [pan]) and
    the storage writes made so far, oldest first. *)
Record Overlay := {
  cameraPosition : Position;
  cameraSize : Size;
  isFullscreen : bool;
  isResizing : bool;
  initialSize : Size;
  pan_offset : Position;
  pan_value : Position;
  storage_writes : list StorageWrite
}.

(** [onPositionChange] (lines 598-601): [setCameraPosition] then
    [saveCameraPosition]. *)
Definition onPositionChange (pos : Position) (o : Overlay) : Overlay :=
  {| cameraPosition := pos; cameraSize := cameraSize o;
     isFullscreen := isFullscreen o; isResizing := isResizing o;
     initialSize := initialSize o; pan_offset := pan_offset o;
     pan_value := pan_value o;
     storage_writes := storage_writes o ++ [WriteCameraPosition pos] |}.

(** [onSizeChange] (lines 603-606): [setCameraSize] then [saveCameraSize]. *)
Definition onSizeChange (size : Size) (o : Overlay) : Overlay :=
  {| cameraPosition := cameraPosition o; cameraSize := size;
     isFullscreen := isFullscreen o; isResizing := isResizing o;
     initialSize := initialSize o; pan_offset := pan_offset o;
     pan_value := pan_value o;
     storage_writes := storage_writes o ++ [WriteCameraSize size] |}.

Definition set_pan (offset value : Position) (o : Overlay) : Overlay :=
  {| cameraPosition := cameraPosition o; cameraSize := cameraSize o;
     isFullscreen := isFullscreen o; isResizing := isResizing o;
     initialSize := initialSize o; pan_offset := offset;
     pan_value := value; storage_writes := storage_writes o |}.

Definition set_resizing (b : bool) (initial_size : Size) (o : Overlay) : Overlay :=
  {| cameraPosition := cameraPosition o; cameraSize := cameraSize o;
     isFullscreen := isFullscreen o; isResizing := b;
     initialSize := initial_size; pan_offset := pan_offset o;
     pan_value := pan_value o; storage_writes := storage_writes o |}.

(** [dragPanResponder.onPanResponderGrant] (lines 905-911) *)
Definition drag_grant (o : Overlay) : Overlay :=
  set_pan (cameraPosition o) {| x := 0; y := 0 |} o.

(** [dragPanResponder.onPanResponderMove] (lines 912-915): the gesture's
    [dx], [dy] go to the animated value only. *)
Definition drag_move (dx dy : Z) (o : Overlay) : Overlay :=
  set_pan (pan_offset o) {| x := dx; y := dy |} o.

(** [dragPanResponder.onPanResponderRelease] (lines 916-922) *)
Definition drag_release (w : Window) (dx dy : Z) (o : Overlay) : Overlay :=
  let position := cameraPosition o in
  let size := cameraSize o in
  let newX := Z.max 0 (Z.min (width w - sz_width size) (x position + dx)) in
  let newY := Z.max 0 (Z.min (height w - sz_height size) (y position + dy)) in
  set_pan {| x := 0; y := 0 |} {| x := newX; y := newY |}
    (onPositionChange {| x := newX; y := newY |} o).

(** [resizePanResponder.onPanResponderGrant] (lines 933-937) *)
Definition resize_grant (o : Overlay) : Overlay :=
  set_resizing true (cameraSize o) o.

(** [resizePanResponder.onPanResponderMove] (lines 938-942) *)
Definition resize_move (w : Window) (dx dy : Z) (o : Overlay) : Overlay :=
  let newWidth :=
    Z.max 150 (Z.min (width w - 40) (sz_width (initialSize o) + dx)) in
  let newHeight :=
    Z.max 100 (Z.min (height w - 100) (sz_height (initialSize o) + dy)) in
  onSizeChange {| sz_width := newWidth; sz_height := newHeight |} o.

(** [resizePanResponder.onPanResponderRelease] (lines 943-946) *)
Definition resize_release (o : Overlay) : Overlay :=
  set_resizing false (initialSize o) o.

(** [handleFullscreen] (lines 949-951) *)
Definition handleFullscreen (o : Overlay) : Overlay :=
  {| cameraPosition := cameraPosition o; cameraSize := cameraSize o;
     isFullscreen := negb (isFullscreen o); isResizing := isResizing o;
     initialSize := initialSize o; pan_offset := pan_offset o;
     pan_value := pan_value o; storage_writes := storage_writes o |}.

(** The callbacks the gesture system delivers to the overlay. *)
Inductive Gesture :=
| DragGrant
| DragMove (dx dy : Z)
| DragRelease (dx dy : Z)
| ResizeGrant
| ResizeMove (dx dy : Z)
| ResizeRelease
| FullscreenPress.

Definition overlay_step (w : Window) (g : Gesture) (o : Overlay) : Overlay :=
  match g with
  | DragGrant => drag_grant o
  | DragMove dx dy => drag_move dx dy o
  | DragRelease dx dy => drag_release w dx dy o
  | ResizeGrant => resize_grant o
  | ResizeMove dx dy => resize_move w dx dy o
  | ResizeRelease => resize_release o
  | FullscreenPress => handleFullscreen o
  end.

(** The storage writes an event of the overlay adds. *)
Definition new_writes (w : Window) (g : Gesture) (o : Overlay) : list StorageWrite :=
  drop (length (storage_writes o)) (storage_writes (overlay_step w g o)).

(** ** Sample inputs *)

Definition window_400x800 : Window := {| width := 400; height := 800 |}.

Definition overlay_300x200 : Overlay :=
  {| cameraPosition := {| x := 20; y := 120 |};
     cameraSize := {| sz_width := 300; sz_height := 200 |};
     isFullscreen := false; isResizing := false;
     initialSize := {| sz_width := 300; sz_height := 200 |};
     pan_offset := {| x := 20; y := 120 |};
     pan_value := {| x := 0; y := 0 |};
     storage_writes := [] |}.

(** The link after the stored address has been read and the first socket
    has opened. *)
Definition connected_sample : App :=
  run [LoadSavedIP (Some (str "192.168.1.100")); SocketOpens 0] initial.

(** The first socket is still connecting when the address is changed: the
    old socket (0) is closing and a new one (1) is connecting. *)
Definition two_sockets_sample : App :=
  run [LoadSavedIP (Some (str "192.168.1.100")); SaveSettings (str "10.0.0.7")]
      initial.

(** The first attempt to reach the stored address is under way. *)
Definition first_attempt_sample : App :=
  run [LoadSavedIP (Some (str "192.168.1.100"))] initial.

(** Five attempts to reach the stored address have failed. *)
Definition exhausted_sample : App :=
  failed_attempts [1006; 1006; 1006; 1006; 1006] first_attempt_sample.

(** A window in landscape orientation and an overlay that is taller than
    it, as the sizes read from storage or taken by default (lines 44,
    97-99) can be. *)
Definition window_1000x400 : Window := {| width := 1000; height := 400 |}.

Definition overlay_750x422 : Overlay :=
  {| cameraPosition := {| x := 20; y := 120 |};
     cameraSize := {| sz_width := 750; sz_height := 422 |};
     isFullscreen := false; isResizing := false;
     initialSize := {| sz_width := 750; sz_height := 422 |};
     pan_offset := {| x := 20; y := 120 |};
     pan_value := {| x := 0; y := 0 |};
     storage_writes := [] |}.

(** A small window. *)
Definition window_180x180 : Window := {| width := 180; height := 180 |}.

(** ** Further parts of the component *)

(** The address shown under the error text (lines 401-410), computed in
    the render from [piIP]. *)
Definition tryingHint (piIP : jsstring) : jsstring :=
  let cleanIP := strip_trailing_slashes (strip_wss (strip_http (trim piIP))) in
  if isNgrok cleanIP then
    let host := strip_port cleanIP in
    str "wss://" ++ host
  else if negb (includes cleanIP (str ":")) then
    str "ws://" ++ cleanIP ++ str ":8765"
  else str "ws://" ++ cleanIP.

(** [l] occurs in [s] as a contiguous part. *)
Definition part_of (l s : jsstring) : Prop :=
  exists pre post, s = pre ++ l ++ post.

(** The code units of the square brackets. *)
Definition is_bracket (c : N) : bool := ((c =? 91) || (c =? 93))%N.

(** [l] begins with a square bracket and ends with one: an IPv6 literal
    with its brackets, or a single bracket. *)
Definition bracketed (l : jsstring) : bool :=
  match head l, last l with
  | Some c, Some d => is_bracket c && is_bracket d
  | _, _ => false
  end.

(** The text of a port: a colon and digits (code units 48 to 58). *)
Definition port_text (u : jsstring) : Prop :=
  Forall (fun c => (48 <= c <= 58)%N) u.

(** The state after the gestures of [gs], first gesture first. *)
Definition overlay_run (w : Window) (gs : list Gesture) (o : Overlay) : Overlay :=
  foldl (fun o g => overlay_step w g o) o gs.

(** The value under the key ['camera_position']: the last position
    written, if any. *)
Definition stored_position (o : Overlay) : option Position :=
  last (omap (fun wr => match wr with
                        | WriteCameraPosition pos => Some pos
                        | WriteCameraSize _ => None
                        end) (storage_writes o)).

(** The value under the key ['camera_size']: the last size written, if
    any. *)
Definition stored_size (o : Overlay) : option Size :=
  last (omap (fun wr => match wr with
                        | WriteCameraSize size => Some size
                        | WriteCameraPosition _ => None
                        end) (storage_writes o)).

(** Where the animated view is drawn: [pan.x], [pan.y] are offset plus
    value. *)
Definition displayed_position (o : Overlay) : Position :=
  {| x := x (pan_offset o) + x (pan_value o);
     y := y (pan_offset o) + y (pan_value o) |}.

(** A socket is live while it is connecting or open. *)
Definition live (k : Socket) : bool :=
  match readyState k with
  | CONNECTING | OPEN => true
  | CLOSING | CLOSED => false
  end.

(** What the handlers maintain about the sockets: a live socket is the
    one held in [wsRef], and every socket was created for the address
    computed from the [piIP] its handlers captured. *)
Definition sockets_invariant (s : App) : Prop :=
  (forall id k, sockets s !! id = Some k -> live k = true -> wsRef s = Some id)
  /\ Forall (fun k => socket_url k = controlUrl (socket_piIP k)) (sockets s).

(** What the handlers maintain about the delays: the attempt count is not
    negative, the timer of [handleSaveSettings] waits 500 ms, and a
    reconnect timer waits [3000 + 2000 * a] ms for some count [a] below 5. *)
Definition delays_invariant (s : App) : Prop :=
  0 <= connectionAttempts s
  /\ forall t tm, timers s !! t = Some tm ->
       match timer_kind tm with
       | SaveSettingsTimer => timer_delay tm = 500
       | ReconnectTimer => exists a, 0 <= a < 5 /\ timer_delay tm = 3000 + 2000 * a
       end.

(* ================================================================== *)
(** * Part II. Properties *)
(* ================================================================== *)

Example resolve_local :
  resolve (str "192.168.1.100")
  = Some {| controlURL := str "ws://192.168.1.100:8765";
            mediaBaseURL := str "http://192.168.1.100:8765/camera" |}.
Proof. reflexivity. Qed.

Example resolve_ngrok :
  resolve (str "HTTPS://abc123.ngrok-free.app:443//")
  = Some {| controlURL := str "wss://abc123.ngrok-free.app";
            mediaBaseURL := str "https://abc123.ngrok-free.app/camera" |}.
Proof. reflexivity. Qed.

(** ** The camera overlay *)

Lemma clamp_range (lo hi v : Z) :
  lo <= hi -> lo <= Z.max lo (Z.min hi v) <= hi.
Proof. lia. Qed.




(** Claim C8, as the code has it.  The only events of the overlay that
    write to storage are the release of a drag, which stores the new
    position once, and every move of a resize, which stores the new size;
    the moves of a drag, the start of either gesture, the release of a
    resize and the fullscreen button store nothing. *)
Theorem C8_storage_writes (w : Window) (g : Gesture) (o : Overlay) :
  storage_writes (overlay_step w g o)
  = storage_writes o ++
    match g with
    | DragRelease dx dy =>
        [WriteCameraPosition (cameraPosition (drag_release w dx dy o))]
    | ResizeMove dx dy =>
        [WriteCameraSize (cameraSize (resize_move w dx dy o))]
    | _ => []
    end.
Proof.
  destruct g; cbn; rewrite ?app_nil_r; reflexivity.
Qed.

(** Claim C8 fails for the resize gesture: a move in the middle of a resize
    writes the size to storage, and the release that ends it writes
    nothing. *)
Lemma C8_resize_move_persists :
  let moved := overlay_step window_400x800 (ResizeMove 5 5)
                 (overlay_step window_400x800 ResizeGrant overlay_300x200) in
  new_writes window_400x800 (ResizeMove 5 5)
    (overlay_step window_400x800 ResizeGrant overlay_300x200)
  = [WriteCameraSize {| sz_width := 305; sz_height := 205 |}]
  /\ new_writes window_400x800 ResizeRelease moved = [].
Proof. split; reflexivity. Qed.

(** ** The command codec *)

Lemma current_readyState_set_controls c s :
  current_readyState (set_controls c s) = current_readyState s.
Proof. reflexivity. Qed.

Lemma sendCommand_open type value s :
  current_readyState s = Some OPEN ->
  sendCommand type value s
  = set_sent (sent s ++ [command_message type value (controls s)]) s.
Proof. intros H. unfold sendCommand. rewrite H. reflexivity. Qed.

Lemma sendCommand_not_open type value s :
  current_readyState s <> Some OPEN -> sendCommand type value s = s.
Proof.
  intros H. unfold sendCommand.
  destruct (current_readyState s) as [[]|]; congruence.
Qed.

Lemma current_readyState_sendCommand type value s :
  current_readyState (sendCommand type value s) = current_readyState s.
Proof.
  unfold sendCommand.
  destruct (current_readyState s) as [[]|] eqn:E; exact E.
Qed.

(** Claim C5.  On an open link a throttle change sends two messages, the
    forward half and then the backward half: [v] and [0] when [v >= 0],
    [0] and [|v|] when [v < 0]; for [v = 0] both halves are [0].  This holds
    for every [v], in particular for those of [[-100, 100]]. *)
Theorem C5_throttle_halves (v : Z) (s : App) :
  current_readyState s = Some OPEN ->
  exists fwd bwd : Message,
    sent (handleThrottleChange v s) = sent s ++ [fwd; bwd]
    /\ field (str "type") fwd = Some (JSStr (str "throttle_forward"))
    /\ field (str "type") bwd = Some (JSStr (str "throttle_backward"))
    /\ (0 <= v -> field (str "value") fwd = Some (JSNum v)
                  /\ field (str "value") bwd = Some (JSNum 0))
    /\ (v < 0 -> field (str "value") fwd = Some (JSNum 0)
                 /\ field (str "value") bwd = Some (JSNum (Z.abs v)))
    /\ (v = 0 -> field (str "value") fwd = Some (JSNum 0)
                 /\ field (str "value") bwd = Some (JSNum 0)).
Proof.
  intros Hopen. unfold handleThrottleChange.
  destruct (Z.leb_spec 0 v) as [Hv | Hv].
  - eexists _, _. split.
    + rewrite (sendCommand_open (str "throttle_backward"))
        by (rewrite current_readyState_sendCommand; exact Hopen).
      rewrite sendCommand_open by exact Hopen. cbn.
      rewrite <- app_assoc. reflexivity.
    + repeat split; intros; subst; try lia; reflexivity.
  - eexists _, _. split.
    + rewrite (sendCommand_open (str "throttle_backward"))
        by (rewrite current_readyState_sendCommand; exact Hopen).
      rewrite sendCommand_open by exact Hopen. cbn.
      rewrite <- app_assoc. reflexivity.
    + repeat split; intros; subst; try lia; reflexivity.
Qed.

Lemma C5_throttle_halves_witness :
  exists fwd bwd : Message,
    sent (handleThrottleChange (-42) connected_sample)
    = sent connected_sample ++ [fwd; bwd]
    /\ field (str "type") fwd = Some (JSStr (str "throttle_forward"))
    /\ field (str "type") bwd = Some (JSStr (str "throttle_backward"))
    /\ (0 <= -42 -> field (str "value") fwd = Some (JSNum (-42))
                    /\ field (str "value") bwd = Some (JSNum 0))
    /\ (-42 < 0 -> field (str "value") fwd = Some (JSNum 0)
                   /\ field (str "value") bwd = Some (JSNum (Z.abs (-42))))
    /\ (-42 = 0 -> field (str "value") fwd = Some (JSNum 0)
                   /\ field (str "value") bwd = Some (JSNum 0)).
Proof. apply (C5_throttle_halves (-42) connected_sample). reflexivity. Defined.

(** *** Frame: the handlers of the link send nothing *)

Ltac unfold_link :=
  unfold handleSaveSettings, loadSavedIP, setPiIP, effect_connect,
    effect_cleanup, disconnectFromServer, timer_fire, ws_onerror,
    ws_onclose, ws_onopen, connectToServer, setTimeout, clearTimeout.

Lemma sent_link_events e s :
  match e with
  | LoadSavedIP _ | SaveSettings _ | TimerFires _ | SocketOpens _
  | SocketCloses _ _ | SocketFails _ => sent (step e s) = sent s
  | _ => True
  end.
Proof.
  destruct e; try exact I; cbn [step]; unfold_link;
    repeat (case_match; cbn; try reflexivity).
Qed.

(** *** The shape of the messages *)

Lemma sent_sendCommand kind value s :
  sent (sendCommand kind value s) = sent s
  \/ sent (sendCommand kind value s)
     = sent s ++ [command_message kind value (controls s)].
Proof.
  unfold sendCommand. destruct (current_readyState s) as [[]|]; cbn; auto.
Qed.

Lemma sent_settings_effect s :
  sent (settings_effect s) = sent s
  \/ sent (settings_effect s) = sent s ++ [settings_message (controls s)].
Proof.
  unfold settings_effect. destruct (current_readyState s) as [[]|]; cbn; auto.
Qed.

Lemma Forall_core_snoc (l : list Message) m :
  Forall core_message l -> core_message m -> Forall core_message (l ++ [m]).
Proof. intros Hl Hm. apply Forall_app; auto. Qed.

Ltac kind_ok := unfold command_kinds; set_solver.

Lemma core_sendCommand_number kind n s :
  kind ∈ command_kinds ->
  Forall core_message (sent s) ->
  Forall core_message (sent (sendCommand kind (JSNum n) s)).
Proof.
  intros Hk Hs. destruct (sent_sendCommand kind (JSNum n) s) as [-> | ->];
    [exact Hs | apply Forall_core_snoc; [exact Hs | constructor; exact Hk]].
Qed.

Lemma core_sendCommand_boolean kind b s :
  kind ∈ command_kinds ->
  Forall core_message (sent s) ->
  Forall core_message (sent (sendCommand kind (JSBool b) s)).
Proof.
  intros Hk Hs. destruct (sent_sendCommand kind (JSBool b) s) as [-> | ->];
    [exact Hs | apply Forall_core_snoc; [exact Hs | constructor; exact Hk]].
Qed.

Lemma core_settings_effect s :
  Forall core_message (sent s) -> Forall core_message (sent (settings_effect s)).
Proof.
  intros Hs. destruct (sent_settings_effect s) as [-> | ->];
    [exact Hs | apply Forall_core_snoc; [exact Hs | constructor]].
Qed.

Lemma core_step e s :
  Forall core_message (sent s) -> Forall core_message (sent (step e s)).
Proof.
  intros Hs. pose proof (sent_link_events e s) as Hlink.
  destruct e; try (rewrite Hlink; exact Hs); cbn [step].
  - unfold handleThrottleChange. case_match;
      repeat (apply core_sendCommand_number; [kind_ok |]); exact Hs.
  - unfold handleBrakeChange.
    apply core_sendCommand_number; [kind_ok | exact Hs].
  - unfold handleSteeringChange. case_match;
      repeat (apply core_sendCommand_number; [kind_ok |]); exact Hs.
  - apply core_sendCommand_boolean; [kind_ok | exact Hs].
  - apply core_sendCommand_boolean; [kind_ok | exact Hs].
  - unfold setGear. case_match; [exact Hs | apply core_settings_effect, Hs].
  - apply core_settings_effect, Hs.
  - apply core_settings_effect, Hs.
Qed.

(** *** The outcome of the constructor *)

(** The handlers written for a constructor that returns are the general
    ones at [Returns]. *)
Lemma with_Returns ip t saved tempIP e s :
  connectToServer_with Returns ip s = connectToServer ip s
  /\ timer_fire_with Returns t s = timer_fire t s
  /\ effect_connect_with Returns s = effect_connect s
  /\ setPiIP_with Returns ip s = setPiIP ip s
  /\ loadSavedIP_with Returns saved s = loadSavedIP saved s
  /\ handleSaveSettings_with Returns tempIP s = handleSaveSettings tempIP s
  /\ step_with Returns e s = step e s.
Proof.
  repeat match goal with |- _ /\ _ => split end; try reflexivity.
  destruct e; reflexivity.
Qed.

Lemma setPiIP_with_shape c ip s :
  setPiIP_with c ip s = setPiIP ip s
  \/ exists ip' s0, setPiIP ip s = connectToServer ip' s0
                    /\ setPiIP_with c ip s = connectToServer_with c ip' s0.
Proof.
  unfold setPiIP_with, setPiIP. case_decide; [left; reflexivity |].
  unfold effect_connect_with, effect_connect.
  destruct (_ && _);
    [right; eexists _, _; split; reflexivity | left; reflexivity].
Qed.

(** A step in which the constructor throws differs from the step in which
    it returns by the call of [connectToServer] at its end, if at all. *)
Lemma step_with_shape c e s :
  step_with c e s = step e s
  \/ exists ip s0, step e s = connectToServer ip s0
                   /\ step_with c e s = connectToServer_with c ip s0.
Proof.
  destruct e; try (left; reflexivity); cbn [step_with step].
  - unfold loadSavedIP_with, loadSavedIP.
    destruct saved as [[| a r] |]; try (left; reflexivity).
    apply setPiIP_with_shape.
  - unfold handleSaveSettings_with, handleSaveSettings.
    destruct (trim tempIP) as [| a r]; [left; reflexivity |].
    unfold setTimeout. cbv beta iota zeta. apply setPiIP_with_shape.
  - unfold timer_fire_with, timer_fire.
    destruct (timers s !! t) as [tm |]; [| left; reflexivity].
    cbv zeta. destruct (timer_kind tm); right; eexists _, _; split; reflexivity.
Qed.

Lemma sent_connectToServer_with c ip s :
  sent (connectToServer_with c ip s) = sent s.
Proof.
  unfold connectToServer_with.
  destruct (isBlank ip); [reflexivity |].
  destruct (current_readyState s) as [[]|]; try reflexivity;
    destruct (reconnectTimeoutRef s); try reflexivity; destruct c; reflexivity.
Qed.

(** What is sent does not depend on the outcome of the constructor. *)
Lemma sent_step_with c e s : sent (step_with c e s) = sent (step e s).
Proof.
  destruct (step_with_shape c e s) as [-> | (ip & s0 & -> & ->)];
    [reflexivity |].
  rewrite sent_connectToServer_with.
  symmetry. exact (sent_connectToServer_with Returns ip s0).
Qed.

Lemma reachable_core_messages s :
  reachable s -> Forall core_message (sent s).
Proof.
  induction 1 as [| e s _ IH | c e s _ IH];
    [constructor | apply core_step, IH |].
  rewrite sent_step_with. apply core_step, IH.
Qed.

Lemma reachable_run es s : reachable s -> reachable (run es s).
Proof.
  revert s. induction es as [| e es IH]; intros s Hs; [exact Hs |].
  cbn. apply IH. constructor. exact Hs.
Qed.

(** Claim C6, as the code has it.  Every message the component sends
    carries [type] (a string), [gear] (1, 2 or 3), [lights] and [auto]
    (booleans).  A message of [sendCommand] has one of the six command types
    and also carries [value], a number or a boolean; the message of type
    [settings] has no [value] field. *)
Theorem C6_message_fields (s : App) (m : Message) :
  reachable s ->
  m ∈ sent s ->
  (exists t, field (str "type") m = Some (JSStr t))
  /\ (exists g : Gear, field (str "gear") m = Some (JSNum (gear_number g)))
  /\ (exists b, field (str "lights") m = Some (JSBool b))
  /\ (exists b, field (str "auto") m = Some (JSBool b))
  /\ ((exists kind, kind ∈ command_kinds
         /\ field (str "type") m = Some (JSStr kind)
         /\ ((exists n, field (str "value") m = Some (JSNum n))
             \/ (exists b, field (str "value") m = Some (JSBool b))))
      \/ (field (str "type") m = Some (JSStr (str "settings"))
          /\ field (str "value") m = None
          /\ length m = 4%nat)).
Proof.
  intros Hs Hm.
  pose proof (reachable_core_messages s Hs) as Hall.
  rewrite Forall_forall in Hall. specialize (Hall m Hm).
  destruct Hall as [kind n c Hk | kind b c Hk | c].
  - repeat split; try (eexists; reflexivity).
    left. exists kind. repeat split; [exact Hk | left; eexists; reflexivity].
  - repeat split; try (eexists; reflexivity).
    left. exists kind. repeat split; [exact Hk | right; eexists; reflexivity].
  - repeat split; try (eexists; reflexivity).
    right. repeat split.
Qed.

Lemma C6_message_fields_witness :
  (exists t, field (str "type") (settings_message (controls (step PressLights connected_sample)))
             = Some (JSStr t))
  /\ field (str "value") (settings_message (controls (step PressLights connected_sample)))
     = None.
Proof.
  pose proof (C6_message_fields (step PressLights connected_sample)
                (settings_message (controls (step PressLights connected_sample)))) as H.
  assert (Hr : reachable (step PressLights connected_sample)).
  { constructor. unfold connected_sample. apply reachable_run. constructor. }
  specialize (H Hr).
  assert (Hin : settings_message (controls (step PressLights connected_sample))
                ∈ sent (step PressLights connected_sample)).
  { vm_compute. apply list_elem_of_here. }
  specialize (H Hin). destruct H as (Ht & _).
  split; [exact Ht | reflexivity].
Defined.

(** Claim C6 fails for the settings message: with the link open, pressing
    the lights button sends one message, which has the four fields [type],
    [gear], [lights] and [auto] and no [value]. *)
Lemma C6_settings_message_has_no_value :
  sent (step PressLights connected_sample)
  = [ [ (str "type", JSStr (str "settings")); (str "gear", JSNum 1);
        (str "lights", JSBool true); (str "auto", JSBool false) ] ]
  /\ forall m, m ∈ sent (step PressLights connected_sample) ->
               field (str "value") m = None.
Proof.
  split; [reflexivity |].
  intros m Hm. change (sent (step PressLights connected_sample))
    with [settings_message (controls (step PressLights connected_sample))] in Hm.
  apply list_elem_of_singleton in Hm. subst m. reflexivity.
Qed.

(** ** Endpoint resolution *)

Lemma dropWhile_stop {A} (p : A -> bool) c l :
  p c = false -> dropWhile p (c :: l) = c :: l.
Proof. intros H. cbn. rewrite H. reflexivity. Qed.

Lemma rev_dropWhile_last {A} (p : A -> bool) (s : list A) c :
  last s = Some c -> p c = false -> rev (dropWhile p (rev s)) = s.
Proof.
  intros Hlast Hc. apply last_Some in Hlast as [l' ->].
  rewrite rev_app_distr. cbn [rev app].
  rewrite dropWhile_stop by exact Hc.
  change (c :: rev l') with (rev [c] ++ rev l').
  rewrite <- rev_app_distr, rev_involutive. reflexivity.
Qed.

(** A string whose first and last code units are not white space is its own
    [trim]. *)
Lemma trim_fixed (c d : N) (r : jsstring) :
  is_whitespace c = false -> last (c :: r) = Some d -> is_whitespace d = false ->
  trim (c :: r) = c :: r.
Proof.
  intros Hc Hlast Hd. unfold trim, trimStart, trimEnd.
  rewrite dropWhile_stop by exact Hc.
  apply rev_dropWhile_last with d; assumption.
Qed.

Lemma strip_trailing_slashes_fixed (s : jsstring) c :
  last s = Some c -> is_slash c = false -> strip_trailing_slashes s = s.
Proof. apply rev_dropWhile_last. Qed.

(** What the code does with a plain address that has no colon: both the
    control address and the camera address get port 8765. *)
Lemma plain_without_port (raw : jsstring) :
  isBlank raw = false ->
  isNgrok (cleanIP_control raw) = false ->
  includes (cleanIP_control raw) (str ":") = false ->
  isNgrok (cleanIP_camera raw) = false ->
  includes (cleanIP_camera raw) (str ":") = false ->
  resolve raw
  = Some {| controlURL := str "ws://" ++ cleanIP_control raw ++ str ":8765";
            mediaBaseURL := str "http://" ++ cleanIP_camera raw ++ str ":8765/camera" |}.
Proof.
  intros Hb Hn Hc Hn' Hc'. unfold resolve, controlUrl, cameraUrl.
  cbn zeta. rewrite Hb, Hn, Hc, Hn', Hc'. reflexivity.
Qed.

(** The addresses of ["192.168.1.100"]: the control address is
    [ws://192.168.1.100:8765]; the camera address is
    [http://192.168.1.100:8765/camera], on the port of the control service
    and not on port 8080. *)
Lemma default_ports_local :
  resolve (str "192.168.1.100")
  = Some {| controlURL := str "ws://192.168.1.100:8765";
            mediaBaseURL := str "http://192.168.1.100:8765/camera" |}
  /\ cameraUrl (str "192.168.1.100") <> str "http://192.168.1.100:8080/camera".
Proof. split; [reflexivity | discriminate]. Qed.

(** For a string of white space only there is no control address, while
    the camera component still builds an address from it. *)
Lemma blank_string_addresses :
  resolve (str "   ") = None
  /\ cameraUrl (str "   ") = str "http://   :8765/camera".
Proof. split; reflexivity. Qed.

(** *** Prefixes and trailing slashes *)

Lemma length_dropWhile {A} (p : A -> bool) l :
  (length (dropWhile p l) <= length l)%nat.
Proof. induction l as [| c l IH]; cbn; [lia |]. destruct (p c); cbn; lia. Qed.

Lemma drop_prefix_ci_app a b s :
  drop_prefix_ci (a ++ b) s = drop_prefix_ci a s ≫= drop_prefix_ci b.
Proof.
  revert s. induction a as [| x a IH]; intros s; [reflexivity |].
  destruct s as [| y s]; cbn; [reflexivity |].
  destruct (fold_case x =? fold_case y)%N; [apply IH | reflexivity].
Qed.

Lemma drop_prefix_ci_match pat p t :
  map fold_case p = map fold_case pat -> drop_prefix_ci pat (p ++ t) = Some t.
Proof.
  revert p. induction pat as [| a pat IH]; intros [| b p] H; cbn in *;
    try discriminate; [reflexivity |].
  injection H as Hb Hp. rewrite Hb, N.eqb_refl. apply IH, Hp.
Qed.

(** A prefix that matches the pattern of [strip_scheme] is removed. *)
Lemma strip_scheme_strips name p t :
  map fold_case name = name ->
  map fold_case p = name ++ str "://" \/ map fold_case p = name ++ str "s://" ->
  strip_scheme name (p ++ t) = t.
Proof.
  intros Hname [Hp | Hp].
  - assert (H : drop_prefix_ci (name ++ str "://") (p ++ t) = Some t).
    { apply drop_prefix_ci_match. rewrite Hp, map_app, Hname. reflexivity. }
    rewrite drop_prefix_ci_app in H. unfold strip_scheme.
    destruct (drop_prefix_ci name (p ++ t)) as [r |]; [| discriminate].
    cbn [mbind option_bind] in H. rewrite H.
    change (str "://") with [58%N; 47%N; 47%N] in H.
    change (str "s://") with [115%N; 58%N; 47%N; 47%N].
    destruct r as [| c r]; [discriminate |].
    cbn [drop_prefix_ci] in H |- *.
    destruct (N.eqb_spec (fold_case 58) (fold_case c)) as [E |];
      [| discriminate].
    rewrite <- E. reflexivity.
  - assert (H : drop_prefix_ci (name ++ str "s://") (p ++ t) = Some t).
    { apply drop_prefix_ci_match. rewrite Hp, map_app, Hname. reflexivity. }
    rewrite drop_prefix_ci_app in H. unfold strip_scheme.
    destruct (drop_prefix_ci name (p ++ t)) as [r |]; [| discriminate].
    cbn [mbind option_bind] in H. rewrite H. reflexivity.
Qed.

(** A string that does not begin with the scheme name and a colon is
    kept. *)
Lemma strip_scheme_keeps name s :
  begins_ci (name ++ str ":") s = false ->
  begins_ci (name ++ str "s:") s = false ->
  strip_scheme name s = s.
Proof.
  unfold begins_ci. rewrite !drop_prefix_ci_app. unfold strip_scheme.
  destruct (drop_prefix_ci name s) as [r |]; [| reflexivity].
  cbn [mbind option_bind]. intros H1 H2.
  change (str "s://") with (str "s:" ++ str "//").
  change (str "://") with (str ":" ++ str "//").
  rewrite !drop_prefix_ci_app.
  destruct (drop_prefix_ci (str "s:") r); [discriminate |].
  destruct (drop_prefix_ci (str ":") r); [discriminate |].
  reflexivity.
Qed.

Lemma begins_ci_slashes pat h n :
  Forall (fun a => fold_case a <> 47%N) pat ->
  begins_ci pat h = false ->
  begins_ci pat (h ++ repeat 47%N n) = false.
Proof.
  unfold begins_ci. intros Hpat. revert h.
  induction Hpat as [| a pat Ha _ IH]; intros h H; [discriminate |].
  destruct h as [| b h]; cbn [app drop_prefix_ci] in *.
  - destruct n as [| n]; cbn [repeat]; [reflexivity |].
    destruct (N.eqb_spec (fold_case a) (fold_case 47)) as [E |];
      [exfalso; apply Ha; exact E | reflexivity].
  - destruct (fold_case a =? fold_case b)%N; [apply IH, H | reflexivity].
Qed.

Lemma has_scheme_false_slashes h n :
  has_scheme h = false ->
  strip_http (h ++ repeat 47%N n) = h ++ repeat 47%N n
  /\ strip_wss (h ++ repeat 47%N n) = h ++ repeat 47%N n.
Proof.
  unfold has_scheme. rewrite !orb_false_iff. intros [[[H1 H2] H3] H4].
  split; apply strip_scheme_keeps; apply begins_ci_slashes;
    try assumption; repeat constructor; discriminate.
Qed.

Lemma strip_trailing_slashes_repeat s n :
  strip_trailing_slashes (s ++ repeat 47%N n) = strip_trailing_slashes s.
Proof.
  unfold strip_trailing_slashes. f_equal.
  induction n as [| n IH]; [rewrite app_nil_r; reflexivity |].
  cbn [repeat]. rewrite repeat_cons, app_assoc, rev_app_distr.
  cbn. exact IH.
Qed.

Lemma trim_fixed_ends (h : jsstring) :
  trim h = h -> h <> [] ->
  exists c r d, h = c :: r /\ is_whitespace c = false
                /\ last h = Some d /\ is_whitespace d = false.
Proof.
  intros Htrim Hne. destruct h as [| c r]; [congruence |].
  assert (Hlen : forall s : jsstring, (length (trimEnd s) <= length s)%nat).
  { intros s. unfold trimEnd. rewrite length_rev.
    etransitivity; [apply length_dropWhile | rewrite length_rev; lia]. }
  destruct (is_whitespace c) eqn:Hc.
  { exfalso. apply (f_equal length) in Htrim. unfold trim, trimStart in Htrim.
    cbn [dropWhile] in Htrim. rewrite Hc in Htrim.
    pose proof (Hlen (dropWhile is_whitespace r)) as H1.
    pose proof (length_dropWhile is_whitespace r) as H2.
    cbn [length] in Htrim. lia. }
  unfold trim, trimStart in Htrim. rewrite dropWhile_stop in Htrim by exact Hc.
  destruct (last (c :: r)) as [d |] eqn:Hlast;
    [| apply last_None in Hlast; discriminate].
  exists c, r, d. repeat split; try assumption.
  destruct (is_whitespace d) eqn:Hd; [exfalso | reflexivity].
  pose proof Hlast as Hl. apply last_Some in Hl as [l' Hl'].
  apply (f_equal length) in Htrim. unfold trimEnd in Htrim.
  rewrite Hl', rev_app_distr in Htrim. cbn [rev app dropWhile] in Htrim.
  rewrite Hd, length_rev, length_app in Htrim.
  pose proof (length_dropWhile is_whitespace (rev l')) as H2.
  rewrite length_rev in H2. cbn [length] in Htrim. lia.
Qed.

Lemma letter_not_whitespace (a : N) :
  (97 <= fold_case a <= 122)%N -> is_whitespace a = false.
Proof.
  intros H. assert (Ha : (65 <= a <= 122)%N).
  { unfold fold_case in H.
    destruct (N.leb_spec 65 a), (N.leb_spec a 90); cbn in H; lia. }
  unfold is_whitespace.
  replace (a <=? 13)%N with false by (symmetry; apply N.leb_gt; lia).
  replace (0x2000 <=? a)%N with false by (symmetry; apply N.leb_gt; lia).
  repeat match goal with
         | |- context [(a =? ?k)%N] =>
             replace (a =? k)%N with false by (symmetry; apply N.eqb_neq; lia)
         end.
  rewrite andb_false_r. reflexivity.
Qed.

Lemma scheme_prefix_head p :
  is_scheme_prefix p ->
  exists a p', p = a :: p' /\ is_whitespace a = false.
Proof.
  unfold is_scheme_prefix, scheme_prefixes. rewrite !elem_of_cons, elem_of_nil.
  intros H. destruct p as [| a p'];
    [destruct H as [H | [H | [H | [H | []]]]]; discriminate |].
  exists a, p'. split; [reflexivity |]. apply letter_not_whitespace.
  destruct H as [H | [H | [H | [H | []]]]];
    apply (f_equal head) in H; cbn [map head] in H;
    injection H as H; rewrite H; vm_compute; split; discriminate.
Qed.

(** The variants of a string [h] that is trimmed, not empty and without a
    scheme of its own are cleaned to the same text as [h]. *)
Lemma clean_variants (h p : jsstring) (n : nat) :
  trim h = h -> h <> [] -> has_scheme h = false ->
  p = [] \/ is_scheme_prefix p ->
  let s := p ++ h ++ repeat 47%N n in
  trim s = s
  /\ s <> []
  /\ strip_trailing_slashes (strip_wss (strip_http s)) = strip_trailing_slashes h.
Proof.
  intros Htrim Hne Hscheme Hp s.
  destruct (trim_fixed_ends h Htrim Hne) as (c & r & d & Hh & Hc & Hlast & Hd).
  assert (Hnil : s <> []).
  { subst s. rewrite Hh. destruct p; discriminate. }
  assert (Hs_last : exists e, last s = Some e /\ is_whitespace e = false).
  { subst s. rewrite app_assoc. destruct n as [| n].
    - cbn [repeat]. rewrite app_nil_r. exists d. split; [| exact Hd].
      rewrite last_app, Hlast. reflexivity.
    - exists 47%N. split; [| reflexivity].
      cbn [repeat]. rewrite repeat_cons, app_assoc. apply last_snoc. }
  destruct Hs_last as (e & He & Hews).
  destruct (has_scheme_false_slashes h n Hscheme) as [Hhttp Hwss].
  split; [| split; [exact Hnil |]].
  - destruct Hp as [-> | Hp].
    + subst s. cbn [app] in *. rewrite Hh in *. cbn [app] in *.
      apply trim_fixed with e; assumption.
    + destruct (scheme_prefix_head p Hp) as (a & p' & -> & Ha).
      subst s. cbn [app] in *. apply trim_fixed with e; assumption.
  - subst s. destruct Hp as [-> | Hp].
    + cbn [app]. rewrite Hhttp, Hwss. apply strip_trailing_slashes_repeat.
    + rewrite <- (strip_trailing_slashes_repeat h n).
      unfold is_scheme_prefix, scheme_prefixes in Hp.
      rewrite !elem_of_cons, elem_of_nil in Hp.
      destruct Hp as [Hp | [Hp | [Hp | [Hp | []]]]].
      * unfold strip_http.
        rewrite (strip_scheme_strips (str "http") p) by (auto; reflexivity).
        rewrite Hwss. reflexivity.
      * unfold strip_http.
        rewrite (strip_scheme_strips (str "http") p) by (auto; reflexivity).
        rewrite Hwss. reflexivity.
      * assert (Hkeep : strip_http (p ++ h ++ repeat 47%N n) = p ++ h ++ repeat 47%N n).
        { destruct p as [| a p']; [discriminate |].
          apply (f_equal head) in Hp. cbn [map head] in Hp. injection Hp as Hp.
          unfold strip_http, strip_scheme.
          change (str "http") with [104%N; 116%N; 116%N; 112%N].
          cbn [app drop_prefix_ci]. rewrite Hp. reflexivity. }
        rewrite Hkeep. unfold strip_wss.
        rewrite (strip_scheme_strips (str "ws") p) by (auto; reflexivity).
        reflexivity.
      * assert (Hkeep : strip_http (p ++ h ++ repeat 47%N n) = p ++ h ++ repeat 47%N n).
        { destruct p as [| a p']; [discriminate |].
          apply (f_equal head) in Hp. cbn [map head] in Hp. injection Hp as Hp.
          unfold strip_http, strip_scheme.
          change (str "http") with [104%N; 116%N; 116%N; 112%N].
          cbn [app drop_prefix_ci]. rewrite Hp. reflexivity. }
        rewrite Hkeep. unfold strip_wss.
        rewrite (strip_scheme_strips (str "ws") p) by (auto; reflexivity).
        reflexivity.
Qed.

(** Claim C7, as the code has it.  Let [h] be trimmed, not empty and
    without a scheme of its own.  Putting [http://], [https://], [ws://] or
    [wss://] (in any letter case) in front of [h], and any number of slashes
    behind it, does not change the resolved addresses. *)
Theorem C7_prefix_and_slashes (h p : jsstring) (n : nat) :
  trim h = h -> h <> [] -> has_scheme h = false ->
  p = [] \/ is_scheme_prefix p ->
  resolve (p ++ h ++ repeat 47%N n) = resolve h.
Proof.
  intros Htrim Hne Hscheme Hp.
  destruct (clean_variants h p n Htrim Hne Hscheme Hp) as (Ht & Hnil & Hclean).
  destruct (clean_variants h [] 0 Htrim Hne Hscheme (or_introl eq_refl))
    as (_ & _ & Hclean0).
  cbn [app repeat] in Hclean0. rewrite app_nil_r in Hclean0.
  unfold resolve, isBlank, controlUrl, cameraUrl, cleanIP_control, cleanIP_camera.
  cbn zeta. rewrite Ht, Htrim, Hclean, Hclean0.
  destruct h; [congruence |].
  destruct (p ++ (n0 :: h) ++ repeat 47%N n); [congruence | reflexivity].
Qed.

Lemma C7_prefix_and_slashes_witness :
  resolve (str "WSS://192.168.1.100:9000//") = resolve (str "192.168.1.100:9000").
Proof.
  apply (C7_prefix_and_slashes (str "192.168.1.100:9000") (str "WSS://") 2).
  - reflexivity.
  - discriminate.
  - reflexivity.
  - right. unfold is_scheme_prefix, scheme_prefixes.
    apply list_elem_of_In. vm_compute. tauto.
Defined.

(** Claim C7 fails when the string already carries a scheme: only one
    [ws://] is removed, the second stays in the address. *)
Lemma C7_second_prefix_is_kept :
  resolve (str "ws://10.0.0.5")
  = Some {| controlURL := str "ws://10.0.0.5:8765";
            mediaBaseURL := str "http://10.0.0.5:8765/camera" |}
  /\ resolve (str "ws://" ++ str "ws://10.0.0.5")
     = Some {| controlURL := str "ws://ws://10.0.0.5";
               mediaBaseURL := str "http://ws://10.0.0.5/camera" |}
  /\ resolve (str "ws://" ++ str "ws://10.0.0.5") <> resolve (str "ws://10.0.0.5").
Proof. repeat split; discriminate. Qed.

(** ** The control link *)

Local Arguments isBlank : simpl never.
Local Arguments controlUrl : simpl never.
Local Arguments cleanIP_control : simpl never.
Local Arguments trim : simpl never.
Local Arguments includes : simpl never.
Local Arguments str : simpl never.
Local Arguments backoffDelay : simpl never.

(** *** The invariant of the link *)

Lemma link_invariant_initial : link_invariant initial.
Proof.
  split; [| split]; cbn; [intros t tm H .. | constructor];
    rewrite lookup_empty in H; discriminate.
Qed.

(** Only the timers, the reference to the reconnect timer and the sockets
    matter. *)
Lemma link_invariant_ext s s' :
  timers s' = timers s -> next_timer s' = next_timer s ->
  reconnectTimeoutRef s' = reconnectTimeoutRef s -> sockets s' = sockets s ->
  link_invariant s -> link_invariant s'.
Proof.
  intros Ht Hn Hr Hk. unfold link_invariant. rewrite Ht, Hn, Hr, Hk. tauto.
Qed.

Lemma link_invariant_connectToServer ip s :
  link_invariant s -> link_invariant (connectToServer ip s).
Proof.
  intros Hs. unfold connectToServer.
  destruct (isBlank ip) eqn:Hip; [revert Hs; apply link_invariant_ext; reflexivity |].
  destruct (current_readyState s) as [[]|]; try exact Hs;
    (destruct (reconnectTimeoutRef s) eqn:Hr; [exact Hs |]);
    destruct Hs as (H1 & H2 & H3);
    (split; [exact H1 | split; [exact H2 |]]); cbn;
    (apply Forall_app; split; [exact H3 | repeat constructor; exact Hip]).
Qed.

(** Clearing the timer held in [reconnectTimeoutRef]. *)
Lemma link_invariant_clear_reconnect s :
  link_invariant s ->
  link_invariant
    match reconnectTimeoutRef s with
    | Some t => set_reconnectTimeoutRef None (clearTimeout t s)
    | None => s
    end.
Proof.
  intros Hs. destruct (reconnectTimeoutRef s) as [t0 |] eqn:Hr; [| exact Hs].
  destruct Hs as (H1 & H2 & H3). split; [| split]; cbn.
  - intros t tm Ht. apply lookup_delete_Some in Ht as [_ Ht]. eauto.
  - intros t tm Ht Hk. apply lookup_delete_Some in Ht as [Hne Ht].
    destruct (H2 t tm Ht Hk) as [Heq _]. congruence.
  - exact H3.
Qed.

Lemma socket_piIP_close k : socket_piIP (socket_close k) = socket_piIP k.
Proof. unfold socket_close. destruct (readyState k); reflexivity. Qed.

(** Closing the socket held in [wsRef]. *)
Lemma link_invariant_close_current s :
  link_invariant s ->
  link_invariant
    match wsRef s with
    | Some i => set_wsRef None (set_sockets (alter socket_close i (sockets s)) s)
    | None => s
    end.
Proof.
  intros Hs. destruct (wsRef s) as [i |]; [| exact Hs].
  destruct Hs as (H1 & H2 & H3). split; [| split]; cbn; [exact H1 | exact H2 |].
  apply Forall_alter; [exact H3 |]. intros k _ Hk.
  rewrite socket_piIP_close. exact Hk.
Qed.

Lemma link_invariant_effect_cleanup s :
  link_invariant s -> link_invariant (effect_cleanup s).
Proof.
  intros Hs. unfold effect_cleanup.
  apply link_invariant_close_current, link_invariant_clear_reconnect, Hs.
Qed.

Lemma link_invariant_disconnectFromServer s :
  link_invariant s -> link_invariant (disconnectFromServer s).
Proof.
  intros Hs. unfold disconnectFromServer.
  eapply link_invariant_ext;
    [.. | apply link_invariant_close_current, link_invariant_clear_reconnect, Hs];
    reflexivity.
Qed.

Lemma link_invariant_setPiIP ip s :
  link_invariant s -> link_invariant (setPiIP ip s).
Proof.
  intros Hs. unfold setPiIP, effect_connect. destruct (decide _); [exact Hs |].
  assert (H : link_invariant (effect_cleanup (set_piIP ip s))).
  { apply link_invariant_effect_cleanup. revert Hs.
    apply link_invariant_ext; reflexivity. }
  destruct (_ && _); [apply link_invariant_connectToServer, H | exact H].
Qed.

Lemma link_invariant_ws_onopen id s :
  link_invariant s -> link_invariant (ws_onopen id s).
Proof.
  intros Hs. unfold ws_onopen.
  destruct (sockets s !! id) as [k |] eqn:Hk; [| exact Hs].
  destruct (readyState k); try exact Hs.
  set (s2 := setConnectionAttempts 0 _).
  assert (H2 : link_invariant s2).
  { destruct Hs as (H1 & H2 & H3).
    split; [exact H1 | split; [exact H2 |]]. cbn.
    apply Forall_insert; [exact H3 |]. cbn.
    rewrite Forall_forall in H3. apply H3.
    apply list_elem_of_lookup. eauto. }
  apply (link_invariant_clear_reconnect s2 H2).
Qed.

Lemma link_invariant_ws_onclose id code s :
  link_invariant s -> link_invariant (ws_onclose id code s).
Proof.
  intros Hs. unfold ws_onclose.
  destruct (sockets s !! id) as [k |] eqn:Hk; [| exact Hs].
  assert (Hip : isBlank (socket_piIP k) = false).
  { destruct Hs as (_ & _ & H3). rewrite Forall_forall in H3. apply H3.
    apply list_elem_of_lookup. eauto. }
  destruct Hs as (H1 & H2 & H3).
  assert (Hsock : Forall (fun k => isBlank (socket_piIP k) = false)
                    (<[id := set_readyState CLOSED k]> (sockets s)))
    by (apply Forall_insert; [exact H3 | exact Hip]).
  destruct (readyState k); [| | | split; [| split]; assumption]; cbn;
    (destruct (reconnectTimeoutRef s) as [t0 |] eqn:Hr; cbn;
     [ destruct (5 <=? connectionAttempts s);
       (split; [exact H1 | split; [| exact Hsock]]); cbn; rewrite ?Hr; exact H2
     | destruct (connectionAttempts s <? 5); cbn;
       [ split; [| split; [| exact Hsock]]; cbn;
         [ intros t tm Ht; apply lookup_insert_Some in Ht as [[<- _] | [_ Ht]];
           [lia | specialize (H1 t tm Ht); lia]
         | intros t tm Ht Hkind;
           apply lookup_insert_Some in Ht as [[<- <-] | [_ Ht]];
           [ split; [reflexivity | exact Hip]
           | destruct (H2 t tm Ht Hkind) as [Hc _]; congruence ] ]
       | destruct (5 <=? connectionAttempts s);
         (split; [exact H1 | split; [| exact Hsock]]); cbn; rewrite ?Hr; exact H2 ] ]).
Qed.

Lemma link_invariant_ws_onerror id s :
  link_invariant s -> link_invariant (ws_onerror id s).
Proof.
  intros Hs. unfold ws_onerror.
  destruct (sockets s !! id) as [k |]; [| exact Hs].
  destruct (readyState k); try exact Hs;
    revert Hs; apply link_invariant_ext; reflexivity.
Qed.

Lemma link_invariant_timer_fire t s :
  link_invariant s -> link_invariant (timer_fire t s).
Proof.
  intros Hs. unfold timer_fire.
  destruct (timers s !! t) as [tm |] eqn:Ht; [| exact Hs].
  destruct Hs as (H1 & H2 & H3).
  destruct (timer_kind tm) eqn:Hkind; apply link_invariant_connectToServer;
    (split; [| split; [| exact H3]]); cbn.
  - intros t' tm' Ht'. apply lookup_delete_Some in Ht' as [_ Ht']. eauto.
  - intros t' tm' Ht' Hk'. apply lookup_delete_Some in Ht' as [Hne Ht'].
    destruct (H2 t tm Ht Hkind) as [Hr _].
    destruct (H2 t' tm' Ht' Hk') as [Hr' _]. congruence.
  - intros t' tm' Ht'. apply lookup_delete_Some in Ht' as [_ Ht']. eauto.
  - intros t' tm' Ht' Hk'. apply lookup_delete_Some in Ht' as [Hne Ht']. eauto.
Qed.

Lemma link_invariant_handleSaveSettings tempIP s :
  link_invariant s -> link_invariant (handleSaveSettings tempIP s).
Proof.
  intros Hs. unfold handleSaveSettings.
  destruct (trim tempIP) as [| c r];
    [revert Hs; apply link_invariant_ext; reflexivity |].
  cbn. apply link_invariant_setPiIP.
  pose proof (link_invariant_disconnectFromServer s Hs) as (H1 & H2 & H3).
  split; [| split; [| exact H3]]; cbn.
  - intros t tm Ht. apply lookup_insert_Some in Ht as [[<- _] | [_ Ht]];
      [lia | specialize (H1 t tm Ht); cbn in H1; lia].
  - intros t tm Ht Hk. apply lookup_insert_Some in Ht as [[_ <-] | [_ Ht]];
      [discriminate | exact (H2 t tm Ht Hk)].
Qed.

Lemma link_invariant_step e s : link_invariant s -> link_invariant (step e s).
Proof.
  intros Hs. destruct e; cbn [step].
  - unfold loadSavedIP. destruct saved as [[| c r] |]; try exact Hs.
    apply link_invariant_setPiIP, Hs.
  - apply link_invariant_handleSaveSettings, Hs.
  - apply link_invariant_timer_fire, Hs.
  - apply link_invariant_ws_onopen, Hs.
  - apply link_invariant_ws_onclose, Hs.
  - apply link_invariant_ws_onerror, Hs.
  - revert Hs. apply link_invariant_ext; unfold handleThrottleChange, sendCommand;
      repeat (case_match; cbn; try reflexivity).
  - revert Hs. apply link_invariant_ext; unfold handleBrakeChange, sendCommand;
      repeat (case_match; cbn; try reflexivity).
  - revert Hs. apply link_invariant_ext; unfold handleSteeringChange, sendCommand;
      repeat (case_match; cbn; try reflexivity).
  - revert Hs. apply link_invariant_ext; unfold handleHonkPress, sendCommand;
      repeat (case_match; cbn; try reflexivity).
  - revert Hs. apply link_invariant_ext; unfold handleHonkRelease, sendCommand;
      repeat (case_match; cbn; try reflexivity).
  - revert Hs. apply link_invariant_ext; unfold setGear, settings_effect;
      repeat (case_match; cbn; try reflexivity).
  - revert Hs. apply link_invariant_ext; unfold toggleLights, settings_effect;
      repeat (case_match; cbn; try reflexivity).
  - revert Hs. apply link_invariant_ext; unfold toggleAuto, settings_effect;
      repeat (case_match; cbn; try reflexivity).
Qed.

(** The invariant holds after [connectToServer] whether the constructor
    returns or throws. *)
Lemma link_invariant_thrown c ip s :
  link_invariant (connectToServer ip s) ->
  link_invariant (connectToServer_with c ip s).
Proof.
  destruct c; [exact (fun H => H) |].
  unfold connectToServer, connectToServer_with.
  destruct (isBlank ip); [exact (fun H => H) |].
  destruct (current_readyState s) as [[]|]; try exact (fun H => H);
    (destruct (reconnectTimeoutRef s); [exact (fun H => H) |]);
    intros (H1 & H2 & H3); (split; [exact H1 | split; [exact H2 |]]);
    cbn in *; apply Forall_app in H3 as [H3 _]; exact H3.
Qed.

Lemma link_invariant_step_with c e s :
  link_invariant s -> link_invariant (step_with c e s).
Proof.
  intros Hs. pose proof (link_invariant_step e s Hs) as H.
  destruct (step_with_shape c e s) as [-> | (ip & s0 & E & ->)]; [exact H |].
  apply link_invariant_thrown. rewrite <- E. exact H.
Qed.

Lemma reachable_link_invariant s : reachable s -> link_invariant s.
Proof.
  induction 1 as [| e s _ IH | c e s _ IH];
    [ apply link_invariant_initial | apply link_invariant_step, IH
    | apply link_invariant_step_with, IH ].
Qed.

(** *** At most one reconnect timer *)

Lemma pending_reconnects_size (s : App) :
  link_invariant s -> (size (pending_reconnects s) <= 1)%nat.
Proof.
  intros (_ & H2 & _). unfold pending_reconnects.
  set (m := filter _ (timers s)).
  assert (Hm : forall t tm, m !! t = Some tm -> reconnectTimeoutRef s = Some t).
  { intros t tm Ht. apply map_lookup_filter_Some in Ht as [Ht Hk].
    exact (proj1 (H2 t tm Ht Hk)). }
  destruct (reconnectTimeoutRef s) as [t0 |] eqn:Hr.
  - destruct (m !! t0) as [tm0 |] eqn:H0.
    + assert (m = {[t0 := tm0]}) as ->; [| rewrite map_size_singleton; lia].
      apply map_eq. intros t. destruct (decide (t = t0)) as [-> | Hne].
      * rewrite lookup_singleton_eq. exact H0.
      * rewrite lookup_singleton_ne by congruence.
        destruct (m !! t) as [tm |] eqn:Ht; [| reflexivity].
        specialize (Hm t tm Ht). congruence.
    + assert (m = ∅) as ->; [| rewrite map_size_empty; lia].
      apply map_empty. intros t.
      destruct (m !! t) as [tm |] eqn:Ht; [| reflexivity].
      specialize (Hm t tm Ht). congruence.
  - assert (m = ∅) as ->; [| rewrite map_size_empty; lia].
    apply map_empty. intros t.
    destruct (m !! t) as [tm |] eqn:Ht; [| reflexivity].
    specialize (Hm t tm Ht). discriminate.
Qed.

Lemma pending_reconnects_empty (s : App) :
  link_invariant s -> reconnectTimeoutRef s = None -> pending_reconnects s = ∅.
Proof.
  intros (_ & H2 & _) Hr. unfold pending_reconnects.
  apply map_empty. intros t.
  destruct (filter _ (timers s) !! t) as [tm |] eqn:Ht; [| reflexivity].
  apply map_lookup_filter_Some in Ht as [Ht Hk].
  destruct (H2 t tm Ht Hk) as [Hc _]. congruence.
Qed.

(** With a reconnect timer armed, [onclose] schedules nothing. *)
Lemma ws_onclose_armed id code s :
  reconnectTimeoutRef s <> None ->
  timers (ws_onclose id code s) = timers s
  /\ reconnectTimeoutRef (ws_onclose id code s) = reconnectTimeoutRef s.
Proof.
  intros Hr. unfold ws_onclose.
  destruct (sockets s !! id) as [k |]; [| split; reflexivity].
  destruct (reconnectTimeoutRef s) as [t0 |] eqn:Hr0; [| congruence].
  destruct (readyState k); cbn; rewrite ?Hr0; cbn;
    try destruct (5 <=? connectionAttempts s); split; cbn; rewrite ?Hr0;
    reflexivity.
Qed.

(** Without one, and below five attempts, the [onclose] of a socket that
    has not closed yet schedules one. *)
Lemma ws_onclose_schedules id code s k :
  sockets s !! id = Some k -> readyState k <> CLOSED ->
  reconnectTimeoutRef s = None -> connectionAttempts s < 5 ->
  timers (ws_onclose id code s)
  = <[next_timer s := {| timer_kind := ReconnectTimer;
                         timer_delay := backoffDelay (connectionAttempts s);
                         timer_piIP := socket_piIP k |}]> (timers s)
  /\ reconnectTimeoutRef (ws_onclose id code s) = Some (next_timer s)
  /\ connectionAttempts (ws_onclose id code s) = connectionAttempts s
  /\ sockets (ws_onclose id code s) = <[id := set_readyState CLOSED k]> (sockets s)
  /\ wsRef (ws_onclose id code s) = wsRef s
  /\ next_timer (ws_onclose id code s) = S (next_timer s)
  /\ isConnected (ws_onclose id code s) = false
  /\ piIP (ws_onclose id code s) = piIP s.
Proof.
  intros Hk Hstate Hr Hlt. unfold ws_onclose. rewrite Hk.
  apply Z.ltb_lt in Hlt.
  destruct (readyState k); try congruence; cbn; rewrite Hr, Hlt; cbn;
    repeat split; reflexivity.
Qed.

(** Claim C3.  In every reachable state at most one reconnect timer is
    pending.  While [reconnectTimeoutRef] holds a timer, the [onclose] of any
    socket leaves the timers as they are; and when a socket fails with no
    timer armed and fewer than five attempts made, a second failure before
    the timer fires leaves exactly one reconnect timer pending. *)
Theorem C3_single_reconnect_timer (s : App) :
  reachable s ->
  (size (pending_reconnects s) <= 1)%nat
  /\ (forall id code,
        reconnectTimeoutRef s <> None ->
        timers (ws_onclose id code s) = timers s)
  /\ (forall id1 code1 id2 code2 k,
        sockets s !! id1 = Some k -> readyState k <> CLOSED ->
        reconnectTimeoutRef s = None -> connectionAttempts s < 5 ->
        size (pending_reconnects
                (ws_onclose id2 code2 (ws_onclose id1 code1 s))) = 1%nat).
Proof.
  intros Hs. pose proof (reachable_link_invariant s Hs) as Hinv.
  split; [apply pending_reconnects_size, Hinv | split].
  - intros id code Hr. apply ws_onclose_armed, Hr.
  - intros id1 code1 id2 code2 k Hk Hstate Hr Hlt.
    destruct (ws_onclose_schedules id1 code1 s k Hk Hstate Hr Hlt)
      as (Ht & Hr1 & _).
    set (s1 := ws_onclose id1 code1 s) in *.
    assert (Harmed : reconnectTimeoutRef s1 <> None) by congruence.
    destruct (ws_onclose_armed id2 code2 s1 Harmed) as [Ht2 _].
    unfold pending_reconnects. rewrite Ht2, Ht.
    rewrite map_filter_insert_True by reflexivity.
    fold (pending_reconnects s).
    rewrite (pending_reconnects_empty s Hinv Hr).
    rewrite insert_empty. apply map_size_singleton.
Qed.

Lemma C3_single_reconnect_timer_witness :
  size (pending_reconnects
          (ws_onclose 1 1006 (ws_onclose 0 1006 two_sockets_sample))) = 1%nat.
Proof.
  assert (Hr : reachable two_sockets_sample)
    by (apply reachable_run, reachable_initial).
  eapply (proj2 (proj2 (C3_single_reconnect_timer two_sockets_sample Hr))
            0%nat 1006 1%nat 1006).
  - vm_compute. reflexivity.
  - cbn. discriminate.
  - vm_compute. reflexivity.
  - vm_compute. reflexivity.
Defined.

(** *** The backoff *)

Lemma connectToServer_attempt ip s :
  isBlank ip = false ->
  current_readyState s <> Some CONNECTING ->
  current_readyState s <> Some OPEN ->
  reconnectTimeoutRef s = None ->
  connectToServer ip s = attempted ip s.
Proof.
  intros Hb Hc Ho Hr. unfold connectToServer. rewrite Hb, Hr.
  destruct (current_readyState s) as [[]|]; congruence || reflexivity.
Qed.

Lemma connectToServer_skip ip s :
  isBlank ip = true
  \/ current_readyState s = Some CONNECTING
  \/ current_readyState s = Some OPEN
  \/ reconnectTimeoutRef s <> None ->
  connectToServer ip s = s
  \/ connectToServer ip s = setConnectionError PleaseSetIP s.
Proof.
  intros H. unfold connectToServer.
  destruct (isBlank ip); [right; reflexivity |]. left.
  destruct H as [H | [H | [H | H]]]; [discriminate | rewrite H .. |];
    try reflexivity.
  destruct (current_readyState s) as [[]|]; try reflexivity;
    destruct (reconnectTimeoutRef s); congruence || reflexivity.
Qed.

Lemma connectToServer_cases ip s :
  (isBlank ip = false
   /\ current_readyState s <> Some CONNECTING
   /\ current_readyState s <> Some OPEN
   /\ reconnectTimeoutRef s = None
   /\ connectToServer ip s = attempted ip s)
  \/ ((isBlank ip = true
       \/ current_readyState s = Some CONNECTING
       \/ current_readyState s = Some OPEN
       \/ reconnectTimeoutRef s <> None)
      /\ (connectToServer ip s = s
          \/ connectToServer ip s = setConnectionError PleaseSetIP s)).
Proof.
  destruct (isBlank ip) eqn:Hb.
  { right. split; [auto |]. apply connectToServer_skip. rewrite Hb. auto. }
  destruct (decide (current_readyState s = Some CONNECTING)) as [Hc | Hc].
  { right. split; [auto |]. apply connectToServer_skip. auto. }
  destruct (decide (current_readyState s = Some OPEN)) as [Ho | Ho].
  { right. split; [auto |]. apply connectToServer_skip. auto. }
  destruct (reconnectTimeoutRef s) as [t0 |] eqn:Hr.
  { right. split; [right; right; right; discriminate |].
    apply connectToServer_skip. rewrite Hr.
    right; right; right; discriminate. }
  left. repeat split; try assumption.
  apply connectToServer_attempt; assumption.
Qed.

(** Claim C4.  When the [onclose] of a socket schedules a timer, it is a
    reconnect timer whose delay is [min (3000 + attempt * 2000) 15000] for
    the attempt count [attempt] at that moment, that count is below 5, and
    scheduling leaves the count as it is.  When the timer fires, either a
    connection attempt is made (a new socket is created) and the count
    grows by exactly one, or no attempt is made and the count stays; the
    attempt is made whenever the captured address is not blank and the
    current socket is neither connecting nor open. *)
Theorem C4_backoff_schedule (s : App) (id : nat) (code : Z) (t : nat) (tm : Timer) :
  timers s !! t = None ->
  timers (ws_onclose id code s) !! t = Some tm ->
  (timer_kind tm = ReconnectTimer
   /\ timer_delay tm = Z.min (3000 + connectionAttempts s * 2000) 15000
   /\ connectionAttempts s < 5
   /\ reconnectTimeoutRef (ws_onclose id code s) = Some t
   /\ connectionAttempts (ws_onclose id code s) = connectionAttempts s)
  /\ (forall s', timers s' !! t = Some tm ->
        let s'' := timer_fire t s' in
        let attempt := {| readyState := CONNECTING;
                          socket_url := controlUrl (timer_piIP tm);
                          socket_piIP := timer_piIP tm |} in
        ((sockets s'' = sockets s' ++ [attempt]
          /\ connectionAttempts s'' = connectionAttempts s' + 1)
         \/ (sockets s'' = sockets s'
             /\ connectionAttempts s'' = connectionAttempts s'))
        /\ (isBlank (timer_piIP tm) = false ->
            current_readyState s' <> Some CONNECTING ->
            current_readyState s' <> Some OPEN ->
            sockets s'' = sockets s' ++ [attempt]
            /\ connectionAttempts s'' = connectionAttempts s' + 1)).
Proof.
  intros Hnone Hsome.
  assert (H : timer_kind tm = ReconnectTimer
              /\ timer_delay tm = backoffDelay (connectionAttempts s)
              /\ connectionAttempts s < 5
              /\ reconnectTimeoutRef (ws_onclose id code s) = Some t
              /\ connectionAttempts (ws_onclose id code s) = connectionAttempts s).
  { revert Hsome. unfold ws_onclose.
    destruct (sockets s !! id) as [k |]; [| congruence].
    destruct (readyState k); try congruence; cbn;
      (destruct (reconnectTimeoutRef s) as [t0 |] eqn:Hr; cbn;
       [ destruct (5 <=? connectionAttempts s); cbn; congruence |]);
      (destruct (Z.ltb_spec (connectionAttempts s) 5) as [Hlt | Hge]; cbn;
       [| destruct (5 <=? connectionAttempts s); cbn; congruence ]);
      intros Hsome;
      (apply lookup_insert_Some in Hsome as [[<- <-] | [_ Hsome]];
       [| congruence]); cbn; repeat split; try reflexivity; exact Hlt. }
  split; [exact H |].
  destruct H as (Hkind & _).
  intros s' Ht s'' attempt. subst s''. unfold timer_fire. rewrite Ht, Hkind.
  set (s1 := set_reconnectTimeoutRef None _).
  destruct (connectToServer_cases (timer_piIP tm) s1)
    as [(Hb & Hc & Ho & Hr & ->) | (Hwhy & [-> | ->])].
  - split; [left | intros _ _ _]; split; reflexivity.
  - split; [right; split; reflexivity |].
    intros Hip Hc Ho. exfalso.
    destruct Hwhy as [Hb | [Hc' | [Ho' | Hr']]];
      [congruence | exact (Hc Hc') | exact (Ho Ho') | apply Hr'; reflexivity].
  - split; [right; split; reflexivity |].
    intros Hip Hc Ho. exfalso.
    destruct Hwhy as [Hb | [Hc' | [Ho' | Hr']]];
      [congruence | exact (Hc Hc') | exact (Ho Ho') | apply Hr'; reflexivity].
Qed.

Lemma C4_backoff_schedule_witness :
  let s := first_attempt_sample in
  let tm := {| timer_kind := ReconnectTimer; timer_delay := 5000;
               timer_piIP := str "192.168.1.100" |} in
  (timer_kind tm = ReconnectTimer
   /\ timer_delay tm = Z.min (3000 + connectionAttempts s * 2000) 15000
   /\ connectionAttempts s < 5
   /\ reconnectTimeoutRef (ws_onclose 0 1006 s) = Some 1%nat
   /\ connectionAttempts (ws_onclose 0 1006 s) = connectionAttempts s)
  /\ connectionAttempts (timer_fire 1 (ws_onclose 0 1006 s)) = 2.
Proof.
  intros s tm.
  pose proof (C4_backoff_schedule s 0%nat 1006 1%nat tm) as H.
  assert (H1 : timers s !! 1%nat = None) by (vm_compute; reflexivity).
  assert (H2 : timers (ws_onclose 0 1006 s) !! 1%nat = Some tm)
    by (vm_compute; reflexivity).
  destruct (H H1 H2) as [Ha Hb]. split; [exact Ha |].
  destruct (Hb (ws_onclose 0 1006 s) H2) as [_ Hc].
  destruct Hc as [_ Hc]; [vm_compute; reflexivity | discriminate | discriminate |].
  rewrite Hc. vm_compute. reflexivity.
Defined.

(** *** Trimming twice *)

Lemma dropWhile_head {A} (p : A -> bool) l c r :
  dropWhile p l = c :: r -> p c = false.
Proof.
  induction l as [| a l IH]; cbn; [discriminate |].
  destruct (p a) eqn:Ha; [exact IH |]. intros [= <- _]. exact Ha.
Qed.

Lemma dropWhile_idem {A} (p : A -> bool) l :
  dropWhile p (dropWhile p l) = dropWhile p l.
Proof.
  induction l as [| a l IH]; cbn; [reflexivity |].
  destruct (p a) eqn:Ha; [exact IH | cbn; rewrite Ha; reflexivity].
Qed.

Lemma dropWhile_suffix {A} (p : A -> bool) l :
  exists pre, l = pre ++ dropWhile p l.
Proof.
  induction l as [| a l [pre IH]]; cbn; [exists []; reflexivity |].
  destruct (p a); [exists (a :: pre); cbn; congruence | exists []; reflexivity].
Qed.

Lemma trim_idem (s : jsstring) : trim (trim s) = trim s.
Proof.
  unfold trim at 2 3. unfold trimStart, trimEnd.
  set (y := dropWhile is_whitespace s).
  set (z := rev (dropWhile is_whitespace (rev y))).
  assert (Hstart : trimStart z = z).
  { destruct z as [| c z'] eqn:Hz; [reflexivity |].
    unfold trimStart. apply dropWhile_stop.
    destruct (dropWhile_suffix is_whitespace (rev y)) as [pre Hpre].
    apply (f_equal (@rev N)) in Hpre.
    rewrite rev_involutive, rev_app_distr in Hpre. fold z in Hpre.
    rewrite Hz in Hpre. cbn in Hpre.
    apply (dropWhile_head is_whitespace s c (z' ++ rev pre)). exact Hpre. }
  unfold trim. rewrite Hstart. unfold trimEnd, z.
  rewrite rev_involutive, dropWhile_idem. reflexivity.
Qed.

Lemma isBlank_trim (s : jsstring) : isBlank (trim s) = isBlank s.
Proof. unfold isBlank. rewrite trim_idem. reflexivity. Qed.

(** *** Five failures in a row *)

Lemma current_readyState_Some s r :
  current_readyState s = Some r ->
  exists id k, wsRef s = Some id /\ sockets s !! id = Some k /\ readyState k = r.
Proof.
  unfold current_readyState.
  destruct (wsRef s) as [id |]; [| discriminate]. cbn [mbind option_bind].
  destruct (sockets s !! id) as [k |] eqn:Hk; [| discriminate].
  cbn [fmap option_fmap option_map]. intros [= <-].
  exists id, k. split; [reflexivity | split; [exact Hk | reflexivity]].
Qed.

Lemma link_invariant_attempt_fails code s :
  link_invariant s -> link_invariant (attempt_fails code s).
Proof.
  intros Hs. unfold attempt_fails. destruct (wsRef s); [| exact Hs].
  apply link_invariant_ws_onclose, link_invariant_ws_onerror, Hs.
Qed.

Lemma link_invariant_reconnect_fires s :
  link_invariant s -> link_invariant (reconnect_fires s).
Proof.
  intros Hs. unfold reconnect_fires.
  destruct (reconnectTimeoutRef s); [apply link_invariant_timer_fire, Hs | exact Hs].
Qed.

(** [onerror] touches the error text and the connected flag only. *)
Lemma ws_onerror_frame id s :
  sockets (ws_onerror id s) = sockets s
  /\ wsRef (ws_onerror id s) = wsRef s
  /\ timers (ws_onerror id s) = timers s
  /\ next_timer (ws_onerror id s) = next_timer s
  /\ reconnectTimeoutRef (ws_onerror id s) = reconnectTimeoutRef s
  /\ connectionAttempts (ws_onerror id s) = connectionAttempts s
  /\ piIP (ws_onerror id s) = piIP s.
Proof.
  unfold ws_onerror. destruct (sockets s !! id) as [k |]; [| tauto].
  destruct (readyState k); cbn; tauto.
Qed.

(** Below five attempts a failed attempt is followed by the next one. *)
Lemma failed_attempt_retries code s :
  link_invariant s -> connecting s -> connectionAttempts s < 5 ->
  let s' := reconnect_fires (attempt_fails code s) in
  connecting s'
  /\ connectionAttempts s' = connectionAttempts s + 1
  /\ timers s' = timers s
  /\ piIP s' = piIP s.
Proof.
  intros Hinv [Hc Hr] Hlt s'.
  destruct (current_readyState_Some s _ Hc) as (id & k & Hws & Hk & Hstate).
  destruct (ws_onerror_frame id s) as (Es & Ew & Et & En & Er & Ea & Ep).
  set (s0 := ws_onerror id s) in *.
  assert (Hk0 : sockets s0 !! id = Some k) by (rewrite Es; exact Hk).
  assert (Hst : readyState k <> CLOSED) by (rewrite Hstate; discriminate).
  assert (Hr0 : reconnectTimeoutRef s0 = None) by congruence.
  assert (Hlt0 : connectionAttempts s0 < 5) by (rewrite Ea; exact Hlt).
  destruct (ws_onclose_schedules id code s0 k Hk0 Hst Hr0 Hlt0)
    as (Ft & Fr & Fa & Fs & Fw & Fn & Fc & Fp).
  set (s1 := ws_onclose id code s0) in *.
  assert (Hs1 : attempt_fails code s = s1)
    by (unfold attempt_fails; rewrite Hws; reflexivity).
  destruct Hinv as (I1 & I2 & I3).
  assert (Hfresh : timers s !! next_timer s = None).
  { destruct (timers s !! next_timer s) as [tm |] eqn:E; [| reflexivity].
    specialize (I1 _ _ E). lia. }
  assert (Hip : isBlank (socket_piIP k) = false).
  { rewrite Forall_forall in I3. apply I3, list_elem_of_lookup. eauto. }
  assert (Hfire : s' = attempted (socket_piIP k)
                         (set_reconnectTimeoutRef None
                            (set_timers (delete (next_timer s0) (timers s1))
                                        (next_timer s1) s1))).
  { subst s'. rewrite Hs1. unfold reconnect_fires. rewrite Fr.
    unfold timer_fire. rewrite Ft, lookup_insert_eq. cbn [timer_kind timer_piIP].
    rewrite <- Ft. apply connectToServer_attempt; try exact Hip; try reflexivity;
      unfold current_readyState; cbn; rewrite Fw, Ew, Hws; cbn;
      rewrite Fs, Es, list_lookup_insert_eq by (eapply lookup_lt_Some; eauto);
      cbn; discriminate. }
  rewrite Hfire. repeat split; cbn.
  - unfold current_readyState. cbn.
    rewrite lookup_app_r by lia. rewrite Nat.sub_diag. reflexivity.
  - rewrite Fa, Ea. reflexivity.
  - rewrite Ft, En, Et. apply delete_insert_id, Hfresh.
  - rewrite Fp, Ep. reflexivity.
Qed.

(** From five attempts on, [onclose] schedules nothing. *)
Lemma ws_onclose_exhausted id code s :
  5 <= connectionAttempts s ->
  timers (ws_onclose id code s) = timers s
  /\ reconnectTimeoutRef (ws_onclose id code s) = reconnectTimeoutRef s
  /\ connectionAttempts (ws_onclose id code s) = connectionAttempts s.
Proof.
  intros Hge. unfold ws_onclose.
  destruct (sockets s !! id) as [k |]; [| tauto].
  assert (H1 : (connectionAttempts s <? 5) = false) by (apply Z.ltb_ge; lia).
  assert (H2 : (5 <=? connectionAttempts s) = true) by (apply Z.leb_le; lia).
  destruct (readyState k); cbn; rewrite ?H1, ?H2, ?andb_false_r; cbn; tauto.
Qed.

Lemma failed_attempt_exhausts code s :
  connecting s -> 5 <= connectionAttempts s ->
  let s' := reconnect_fires (attempt_fails code s) in
  reconnectTimeoutRef s' = None
  /\ timers s' = timers s
  /\ connectionAttempts s' = connectionAttempts s
  /\ connectionError s' = FailedAfter5
  /\ isConnected s' = false
  /\ current_readyState s' = Some CLOSED
  /\ piIP s' = piIP s.
Proof.
  intros [Hc Hr] Hge s'.
  destruct (current_readyState_Some s _ Hc) as (id & k & Hws & Hk & Hstate).
  destruct (ws_onerror_frame id s) as (Es & Ew & Et & En & Er & Ea & Ep).
  assert (Hs' : s' = ws_onclose id code (ws_onerror id s)).
  { subst s'. unfold attempt_fails. rewrite Hws. unfold reconnect_fires.
    destruct (ws_onclose_exhausted id code (ws_onerror id s)) as (_ & -> & _);
      [rewrite Ea; exact Hge |].
    rewrite Er, Hr. reflexivity. }
  rewrite Hs'. set (s0 := ws_onerror id s) in *. clearbody s0.
  assert (H1 : (connectionAttempts s0 <? 5) = false) by (apply Z.ltb_ge; lia).
  assert (H2 : (5 <=? connectionAttempts s0) = true) by (apply Z.leb_le; lia).
  unfold ws_onclose. rewrite Es, Hk, Hstate. cbn.
  rewrite H1, H2, andb_false_r. cbn.
  repeat split; try congruence.
  unfold current_readyState. cbn. rewrite Ew, Hws. cbn.
  rewrite list_lookup_insert_eq by (eapply lookup_lt_Some; eauto).
  reflexivity.
Qed.

(** *** A new address after the retries are used up *)

Lemma handleSaveSettings_resumes tempIP e :
  trim tempIP <> [] -> trim tempIP <> piIP e ->
  reconnectTimeoutRef e = None -> isConnected e = false ->
  let r := handleSaveSettings tempIP e in
  piIP r = trim tempIP
  /\ connectionAttempts r = 1
  /\ connecting r
  /\ (exists id, wsRef r = Some id
                 /\ sockets r !! id
                    = Some {| readyState := CONNECTING;
                              socket_url := controlUrl (trim tempIP);
                              socket_piIP := trim tempIP |})
  /\ timers r = <[next_timer e := {| timer_kind := SaveSettingsTimer;
                                    timer_delay := 500;
                                    timer_piIP := piIP e |}]> (timers e).
Proof.
  intros Hne Hnew Hr Hconn r.
  assert (Hblank : isBlank (trim tempIP) = false).
  { rewrite isBlank_trim. unfold isBlank. destruct (trim tempIP); congruence. }
  subst r. unfold handleSaveSettings.
  destruct (trim tempIP) as [| c t] eqn:Htrim; [congruence |].
  destruct e as [ctl ip conn err att socks ws tms nt ref snt].
  cbn in Hnew, Hr, Hconn. subst ref conn.
  unfold disconnectFromServer, setTimeout, setPiIP.
  destruct ws as [i |]; cbn;
    (case_decide; [congruence |]);
    unfold effect_cleanup, effect_connect; cbn;
    (rewrite connectToServer_attempt by (try exact Hblank; reflexivity || discriminate));
    cbn;
    (split; [reflexivity | split; [reflexivity | split; [| split; [| reflexivity]]]]);
    lazymatch goal with
    | |- connecting _ =>
        split; [| reflexivity]; unfold current_readyState; cbn;
        rewrite list_lookup_middle by reflexivity; reflexivity
    | |- ex _ =>
        eexists; split; [reflexivity | apply list_lookup_middle; reflexivity]
    end.
Qed.

Lemma connectToServer_thrown_attempt ip s :
  isBlank ip = false ->
  current_readyState s <> Some CONNECTING ->
  current_readyState s <> Some OPEN ->
  reconnectTimeoutRef s = None ->
  connectToServer_with Throws ip s
  = setConnectionError FailedToCreateConnection
      (setIsConnected false
         (setConnectionAttempts (connectionAttempts s + 1) s)).
Proof.
  intros Hb Hc Ho Hr. unfold connectToServer_with. rewrite Hb, Hr.
  destruct (current_readyState s) as [[]|]; congruence || reflexivity.
Qed.

(** When the constructor throws for the new address, the attempt is
    counted and nothing else is started. *)
Lemma handleSaveSettings_thrown tempIP e :
  trim tempIP <> [] -> trim tempIP <> piIP e ->
  reconnectTimeoutRef e = None -> isConnected e = false ->
  let r := handleSaveSettings_with Throws tempIP e in
  piIP r = trim tempIP
  /\ connectionAttempts r = 1
  /\ current_readyState r = None
  /\ wsRef r = None
  /\ length (sockets r) = length (sockets e)
  /\ reconnectTimeoutRef r = None
  /\ connectionError r = FailedToCreateConnection
  /\ isConnected r = false
  /\ timers r = <[next_timer e := {| timer_kind := SaveSettingsTimer;
                                    timer_delay := 500;
                                    timer_piIP := piIP e |}]> (timers e).
Proof.
  intros Hne Hnew Hr Hconn r.
  assert (Hblank : isBlank (trim tempIP) = false).
  { rewrite isBlank_trim. unfold isBlank. destruct (trim tempIP); congruence. }
  subst r. unfold handleSaveSettings_with.
  destruct (trim tempIP) as [| c t] eqn:Htrim; [congruence |].
  destruct e as [ctl ip conn err att socks ws tms nt ref snt].
  cbn in Hnew, Hr, Hconn. subst ref conn.
  unfold disconnectFromServer, setTimeout, setPiIP_with.
  destruct ws as [i |]; cbn;
    (case_decide; [congruence |]);
    unfold effect_cleanup, effect_connect_with; cbn;
    (rewrite connectToServer_thrown_attempt
       by (try exact Hblank; reflexivity || discriminate));
    cbn; rewrite ?length_alter; repeat split.
Qed.




(** ** Brackets in the address *)

Lemma part_of_app l s a b : part_of l s -> part_of l (a ++ s ++ b).
Proof.
  intros (pre & post & ->). exists (a ++ pre), (post ++ b).
  rewrite <- !app_assoc. reflexivity.
Qed.

Lemma part_of_app_l l s a : part_of l s -> part_of l (a ++ s).
Proof.
  intros (pre & post & ->). exists (a ++ pre), post.
  rewrite <- app_assoc. reflexivity.
Qed.

Lemma part_of_rev l s : part_of l s -> part_of (rev l) (rev s).
Proof.
  intros (pre & post & ->). exists (rev post), (rev pre).
  rewrite !rev_app_distr, <- app_assoc. reflexivity.
Qed.

Lemma part_of_cut_prefix c l a t :
  Forall (fun x => x <> c) a -> part_of (c :: l) (a ++ t) -> part_of (c :: l) t.
Proof.
  intros Ha (pre & post & E). revert pre E.
  induction Ha as [| x a Hx _ IH]; intros pre E.
  - exists pre, post. exact E.
  - destruct pre as [| p pre]; cbn in E; injection E as E1 E2.
    + congruence.
    + apply (IH pre E2).
Qed.

Lemma part_of_cut_suffix c l t b :
  Forall (fun x => x <> c) b -> part_of (l ++ [c]) (t ++ b) -> part_of (l ++ [c]) t.
Proof.
  intros Hb H. apply part_of_rev in H. rewrite !rev_app_distr in H.
  cbn [rev app] in H.
  apply part_of_cut_prefix in H; [| apply Forall_rev, Hb].
  apply part_of_rev in H. cbn [rev] in H. rewrite !rev_involutive in H.
  exact H.
Qed.

Lemma bracketed_ends l :
  bracketed l = true ->
  exists c r d r', l = c :: r /\ l = r' ++ [d]
                   /\ is_bracket c = true /\ is_bracket d = true.
Proof.
  unfold bracketed. destruct (head l) as [c |] eqn:Hh; [| discriminate].
  destruct (last l) as [d |] eqn:Hl; [| discriminate].
  rewrite andb_true_iff. intros [Hc Hd].
  apply last_Some in Hl as [r' Hr'].
  destruct l as [| c' r]; [discriminate |]. cbn in Hh. injection Hh as ->.
  exists c, r, d, r'. auto.
Qed.

Lemma bracketed_cut_prefix l a t :
  bracketed l = true -> Forall (fun x => is_bracket x = false) a ->
  part_of l (a ++ t) -> part_of l t.
Proof.
  intros Hl Ha. destruct (bracketed_ends l Hl) as (c & r & _ & _ & -> & _ & Hc & _).
  apply part_of_cut_prefix.
  eapply Forall_impl; [exact Ha |]. intros x Hx ->. cbn beta in Hx. congruence.
Qed.

Lemma bracketed_cut_suffix l t b :
  bracketed l = true -> Forall (fun x => is_bracket x = false) b ->
  part_of l (t ++ b) -> part_of l t.
Proof.
  intros Hl Hb. destruct (bracketed_ends l Hl) as (_ & _ & d & r' & _ & -> & _ & Hd).
  apply part_of_cut_suffix.
  eapply Forall_impl; [exact Hb |]. intros x Hx ->. cbn beta in Hx. congruence.
Qed.

Lemma bracket_cases c : is_bracket c = true -> c = 91%N \/ c = 93%N.
Proof.
  unfold is_bracket. rewrite orb_true_iff, !N.eqb_eq. tauto.
Qed.

Lemma whitespace_no_bracket c : is_whitespace c = true -> is_bracket c = false.
Proof.
  intros Hw. destruct (is_bracket c) eqn:Hb; [| reflexivity].
  destruct (bracket_cases c Hb) as [-> | ->]; discriminate.
Qed.

Lemma slash_no_bracket c : is_slash c = true -> is_bracket c = false.
Proof.
  intros Hw. destruct (is_bracket c) eqn:Hb; [| reflexivity].
  destruct (bracket_cases c Hb) as [-> | ->]; discriminate.
Qed.

Lemma port_text_no_bracket b : port_text b -> Forall (fun x => is_bracket x = false) b.
Proof.
  intros Hb. eapply Forall_impl; [exact Hb |]. intros x Hx. cbn beta in Hx.
  destruct (is_bracket x) eqn:E; [| reflexivity].
  destruct (bracket_cases x E) as [-> | ->]; lia.
Qed.

Lemma fold_case_no_bracket x : is_bracket (fold_case x) = false -> is_bracket x = false.
Proof.
  intros H. destruct (is_bracket x) eqn:E; [| reflexivity].
  destruct (bracket_cases x E) as [-> | ->]; discriminate.
Qed.

Lemma dropWhile_split {A} (p : A -> bool) l :
  exists pre, l = pre ++ dropWhile p l /\ Forall (fun x => p x = true) pre.
Proof.
  induction l as [| a l (pre & IH & Hpre)]; cbn; [exists []; split; [reflexivity | constructor] |].
  destruct (p a) eqn:Ha.
  - exists (a :: pre). split; [cbn; congruence | constructor; assumption].
  - exists []. split; [reflexivity | constructor].
Qed.

Lemma rev_dropWhile_split {A} (p : A -> bool) (s : list A) :
  exists b, s = rev (dropWhile p (rev s)) ++ b /\ Forall (fun x => p x = true) b.
Proof.
  destruct (dropWhile_split p (rev s)) as (pre & E & Hpre).
  exists (rev pre). split; [| apply Forall_rev, Hpre].
  apply (f_equal (@rev A)) in E. rewrite rev_involutive, rev_app_distr in E.
  exact E.
Qed.

Lemma takeWhile_dropWhile {A} (p : A -> bool) (l : list A) :
  l = takeWhile p l ++ dropWhile p l
  /\ Forall (fun x => p x = true) (takeWhile p l).
Proof.
  induction l as [| a l [IH1 IH2]]; cbn; [split; [reflexivity | constructor] |].
  destruct (p a) eqn:Ha; cbn.
  - split; [congruence | constructor; assumption].
  - split; [reflexivity | constructor].
Qed.

Lemma drop_prefix_ci_split p s r :
  drop_prefix_ci p s = Some r ->
  exists a, s = a ++ r /\ map fold_case a = map fold_case p.
Proof.
  revert s. induction p as [| x p IH]; intros s; cbn [drop_prefix_ci].
  - intros [= ->]. exists []. split; reflexivity.
  - destruct s as [| y s]; [discriminate |].
    destruct (N.eqb_spec (fold_case x) (fold_case y)) as [E |]; [| discriminate].
    intros H. destruct (IH s H) as (a & -> & Ha).
    exists (y :: a). split; [reflexivity |]. cbn. congruence.
Qed.

Lemma ci_match_no_bracket a p :
  map fold_case a = map fold_case p ->
  Forall (fun y => is_bracket (fold_case y) = false) p ->
  Forall (fun x => is_bracket x = false) a.
Proof.
  intros E Hp. revert a E. induction Hp as [| y p Hy _ IH]; intros [| x a] E;
    try discriminate; [constructor |].
  cbn in E. injection E as E1 E2. constructor; [| apply IH, E2].
  apply fold_case_no_bracket. rewrite E1. exact Hy.
Qed.

Lemma strip_scheme_split name s :
  Forall (fun y => is_bracket (fold_case y) = false) name ->
  exists a, s = a ++ strip_scheme name s /\ Forall (fun x => is_bracket x = false) a.
Proof.
  intros Hname. unfold strip_scheme.
  assert (Hnil : exists a : jsstring, s = a ++ s /\ Forall (fun x => is_bracket x = false) a)
    by (exists []; split; [reflexivity | constructor]).
  destruct (drop_prefix_ci name s) as [r |] eqn:Hr; [| exact Hnil].
  destruct (drop_prefix_ci_split _ _ _ Hr) as (a1 & -> & Ha1).
  pose proof (ci_match_no_bracket _ _ Ha1 Hname) as H1.
  destruct (drop_prefix_ci (str "s://") r) as [r' |] eqn:Hr1.
  { destruct (drop_prefix_ci_split _ _ _ Hr1) as (a2 & -> & Ha2).
    exists (a1 ++ a2). split; [rewrite app_assoc; reflexivity |].
    apply Forall_app. split; [exact H1 |].
    apply (ci_match_no_bracket _ _ Ha2). repeat constructor. }
  destruct (drop_prefix_ci (str "://") r) as [r' |] eqn:Hr2; [| exact Hnil].
  destruct (drop_prefix_ci_split _ _ _ Hr2) as (a2 & -> & Ha2).
  exists (a1 ++ a2). split; [rewrite app_assoc; reflexivity |].
  apply Forall_app. split; [exact H1 |].
  apply (ci_match_no_bracket _ _ Ha2). repeat constructor.
Qed.

Lemma strip_port_split s : exists b, s = strip_port s ++ b /\ port_text b.
Proof.
  assert (Hnil : exists b : jsstring, s = s ++ b /\ port_text b)
    by (exists []; split; [rewrite app_nil_r; reflexivity | constructor]).
  unfold strip_port. cbv zeta.
  destruct (takeWhile_dropWhile is_digit (rev s)) as [E Hd].
  destruct (takeWhile is_digit (rev s)) as [| d ds]; [exact Hnil |].
  destruct (dropWhile is_digit (rev s)) as [| c rest]; [exact Hnil |].
  destruct (is_colon c) eqn:Hc; [| exact Hnil].
  exists (c :: rev (d :: ds)). split.
  - apply (f_equal (@rev N)) in E. rewrite rev_involutive, rev_app_distr in E.
    rewrite E. cbn [rev]. rewrite <- !app_assoc. reflexivity.
  - unfold is_colon in Hc. apply N.eqb_eq in Hc. subst c.
    constructor; [lia |]. apply Forall_rev.
    eapply Forall_impl; [exact Hd |]. intros x Hx. cbn beta in Hx.
    unfold is_digit in Hx. rewrite andb_true_iff, !N.leb_le in Hx. lia.
Qed.

(** *** The clean-up keeps a bracketed part *)

Section kept.
Variable l : jsstring.
Hypothesis Hl : bracketed l = true.

Lemma part_of_trim s : part_of l s -> part_of l (trim s).
Proof.
  intros H. unfold trim, trimStart, trimEnd.
  destruct (dropWhile_split is_whitespace s) as (a & E & Ha).
  rewrite E in H. apply bracketed_cut_prefix in H; [| exact Hl |].
  2:{ eapply Forall_impl; [exact Ha |]. intros x Hx. apply whitespace_no_bracket, Hx. }
  destruct (rev_dropWhile_split is_whitespace (dropWhile is_whitespace s)) as (b & E' & Hb).
  rewrite E' in H. apply bracketed_cut_suffix in H; [exact H | exact Hl |].
  eapply Forall_impl; [exact Hb |]. intros x Hx. apply whitespace_no_bracket, Hx.
Qed.

Lemma part_of_strip_scheme name s :
  Forall (fun y => is_bracket (fold_case y) = false) name ->
  part_of l s -> part_of l (strip_scheme name s).
Proof.
  intros Hname H. destruct (strip_scheme_split name s Hname) as (a & E & Ha).
  rewrite E in H. apply bracketed_cut_prefix in H; assumption.
Qed.

Lemma part_of_strip_trailing_slashes s :
  part_of l s -> part_of l (strip_trailing_slashes s).
Proof.
  intros H. unfold strip_trailing_slashes.
  destruct (rev_dropWhile_split is_slash s) as (b & E & Hb).
  rewrite E in H. apply bracketed_cut_suffix in H; [exact H | exact Hl |].
  eapply Forall_impl; [exact Hb |]. intros x Hx. apply slash_no_bracket, Hx.
Qed.

Lemma part_of_strip_port s : part_of l s -> part_of l (strip_port s).
Proof.
  intros H. destruct (strip_port_split s) as (b & E & Hb).
  rewrite E in H. apply bracketed_cut_suffix in H; [exact H | exact Hl |].
  apply port_text_no_bracket, Hb.
Qed.

Lemma part_of_clean s :
  part_of l s -> part_of l (strip_trailing_slashes (strip_wss (strip_http s))).
Proof.
  intros H. apply part_of_strip_trailing_slashes.
  apply part_of_strip_scheme; [repeat constructor |].
  apply part_of_strip_scheme; [repeat constructor | exact H].
Qed.

Lemma part_of_controlUrl raw : part_of l raw -> part_of l (controlUrl raw).
Proof.
  intros H. unfold controlUrl, cleanIP_control. cbv zeta.
  pose proof (part_of_clean _ (part_of_trim _ H)) as Hc.
  destruct (isNgrok _); [apply part_of_app_l, part_of_strip_port, Hc |].
  destruct (includes _ _); [apply part_of_app_l, Hc | apply part_of_app, Hc].
Qed.

Lemma part_of_cameraUrl raw : part_of l raw -> part_of l (cameraUrl raw).
Proof.
  intros H. unfold cameraUrl, cleanIP_camera. cbv zeta.
  pose proof (part_of_clean _ H) as Hc.
  destruct (isNgrok _); [apply part_of_app, part_of_strip_port, Hc |].
  destruct (includes _ _); apply part_of_app, Hc.
Qed.

Lemma part_of_not_blank raw : part_of l raw -> isBlank raw = false.
Proof.
  intros H. apply part_of_trim in H. destruct H as (pre & post & E).
  destruct (bracketed_ends l Hl) as (c & r & _ & _ & -> & _).
  unfold isBlank. rewrite E. destruct pre; reflexivity.
Qed.
End kept.




(* ================================================================== *)
(** * Part III. Further properties of the code *)
(* ================================================================== *)

(** ** Tunnel names and the address hint *)

Lemma drop_prefix_ci_app_r p h r u :
  drop_prefix_ci p h = Some r -> drop_prefix_ci p (h ++ u) = Some (r ++ u).
Proof.
  revert h. induction p as [| a p IH]; intros h; cbn [drop_prefix_ci].
  - intros [= ->]. reflexivity.
  - destruct h as [| b h]; [discriminate |]. cbn [app].
    destruct (fold_case a =? fold_case b)%N; [apply IH | discriminate].
Qed.

(** A pattern none of whose code units can match a code unit of [u] does
    not start to match in [u]. *)
Lemma drop_prefix_ci_None_app p h u :
  Forall (fun a => Forall (fun c => fold_case a <> fold_case c) u) p ->
  drop_prefix_ci p h = None -> drop_prefix_ci p (h ++ u) = None.
Proof.
  intros Hp. revert h. induction Hp as [| a p Ha _ IH]; intros h;
    cbn [drop_prefix_ci]; [discriminate |].
  destruct h as [| b h]; cbn [app].
  - intros _. destruct u as [| c u]; [reflexivity |].
    apply Forall_cons in Ha as [Hac _].
    destruct (N.eqb_spec (fold_case a) (fold_case c)); [contradiction | reflexivity].
  - destruct (fold_case a =? fold_case b)%N; [apply IH | reflexivity].
Qed.

(** A pattern that ends in a slash does not match across a text without
    slashes. *)
Lemma drop_prefix_ci_slash_None p h u :
  Forall (fun c => fold_case c <> 47%N) u ->
  drop_prefix_ci (p ++ [47%N]) h = None ->
  drop_prefix_ci (p ++ [47%N]) (h ++ u) = None.
Proof.
  revert h u. induction p as [| a p IH]; intros h u Hu; cbn [app drop_prefix_ci].
  - destruct h as [| b h]; cbn [app].
    + intros _. destruct Hu as [| c u Hc _]; [reflexivity |].
      destruct (N.eqb_spec (fold_case 47) (fold_case c)) as [E |];
        [exfalso; apply Hc; symmetry; exact E | reflexivity].
    + destruct (fold_case 47 =? fold_case b)%N; [discriminate | reflexivity].
  - destruct h as [| b h]; cbn [app].
    + intros _. destruct Hu as [| c u Hc Hu]; [reflexivity |].
      destruct (fold_case a =? fold_case c)%N; [| reflexivity].
      apply (IH [] u Hu). destruct p; reflexivity.
    + destruct (fold_case a =? fold_case b)%N; [apply IH, Hu | reflexivity].
Qed.

Lemma port_text_no_slash u :
  port_text u -> Forall (fun c => fold_case c <> 47%N) u.
Proof.
  intros Hu. eapply Forall_impl; [exact Hu |]. intros c Hc. cbn beta in Hc.
  unfold fold_case.
  destruct (N.leb_spec 65 c), (N.leb_spec c 90); cbn; lia.
Qed.

Lemma port_text_no_letter u a :
  (97 <= a <= 122)%N -> port_text u ->
  Forall (fun c => fold_case a <> fold_case c) u.
Proof.
  intros Ha Hu. eapply Forall_impl; [exact Hu |]. intros c Hc. cbn beta in Hc.
  unfold fold_case.
  destruct (N.leb_spec 65 c), (N.leb_spec c 90), (N.leb_spec 65 a),
    (N.leb_spec a 90); cbn; lia.
Qed.

(** Appending a port text commutes with removing a scheme. *)
Lemma strip_scheme_port name h u :
  Forall (fun a => (97 <= a <= 122)%N) name -> port_text u ->
  strip_scheme name (h ++ u) = strip_scheme name h ++ u.
Proof.
  intros Hname Hu. pose proof (port_text_no_slash u Hu) as Hns.
  unfold strip_scheme.
  destruct (drop_prefix_ci name h) as [r |] eqn:Hr.
  - rewrite (drop_prefix_ci_app_r _ _ _ u Hr).
    destruct (drop_prefix_ci (str "s://") r) as [r' |] eqn:H1.
    + rewrite (drop_prefix_ci_app_r _ _ _ u H1). reflexivity.
    + change (str "s://") with ([115%N; 58%N; 47%N] ++ [47%N]) in H1 |- *.
      rewrite (drop_prefix_ci_slash_None _ _ _ Hns H1).
      destruct (drop_prefix_ci (str "://") r) as [r' |] eqn:H2.
      * rewrite (drop_prefix_ci_app_r _ _ _ u H2). reflexivity.
      * change (str "://") with ([58%N; 47%N] ++ [47%N]) in H2 |- *.
        rewrite (drop_prefix_ci_slash_None _ _ _ Hns H2). reflexivity.
  - rewrite drop_prefix_ci_None_app; [reflexivity | | exact Hr].
    eapply Forall_impl; [exact Hname |]. intros a Ha. cbn beta in Ha.
    apply port_text_no_letter; assumption.
Qed.

Lemma starts_with_app p h u :
  starts_with p h = true -> starts_with p (h ++ u) = true.
Proof.
  revert h. induction p as [| a p IH]; intros h; [reflexivity |].
  destruct h as [| b h]; cbn [starts_with app]; [discriminate |].
  rewrite !andb_true_iff. intros [Hab Hp]. split; [exact Hab | apply IH, Hp].
Qed.

Lemma includes_cons b h p :
  includes (b :: h) p = starts_with p (b :: h) || includes h p.
Proof. reflexivity. Qed.

Lemma includes_app h u p :
  includes h p = true -> includes (h ++ u) p = true.
Proof.
  induction h as [| b h IH].
  - destruct p as [| a p]; [| discriminate]. intros _. destruct u; reflexivity.
  - cbn [app]. rewrite !includes_cons, !orb_true_iff. intros [Hs | Hi].
    + left. apply (starts_with_app p (b :: h) u Hs).
    + right. apply IH, Hi.
Qed.

Lemma isNgrok_app h u : isNgrok h = true -> isNgrok (h ++ u) = true.
Proof.
  unfold isNgrok. rewrite !orb_true_iff.
  intros [[H | H] | H]; [left; left | left; right | right];
    apply includes_app, H.
Qed.

Lemma takeWhile_app_stop {A} (p : A -> bool) l c r :
  Forall (fun a => p a = true) l -> p c = false ->
  takeWhile p (l ++ c :: r) = l /\ dropWhile p (l ++ c :: r) = c :: r.
Proof.
  intros Hl Hc. induction Hl as [| a l Ha _ [IH1 IH2]]; cbn.
  - rewrite Hc. split; reflexivity.
  - rewrite Ha, IH1, IH2. split; reflexivity.
Qed.

(** [replace(/:\d+$/, '')] removes a final colon with its digits. *)
Lemma strip_port_port h d :
  d <> [] -> Forall (fun c => is_digit c = true) d ->
  strip_port (h ++ 58%N :: d) = h.
Proof.
  intros Hne Hd. unfold strip_port. cbn zeta.
  rewrite rev_app_distr. cbn [rev]. rewrite <- app_assoc. cbn [app].
  assert (Hrd : Forall (fun c => is_digit c = true) (rev d)).
  { rewrite Forall_forall in Hd |- *. intros c Hc. apply Hd.
    apply list_elem_of_In, in_rev, list_elem_of_In, Hc. }
  destruct (takeWhile_app_stop is_digit (rev d) 58%N (rev h) Hrd eq_refl)
    as [-> ->].
  destruct (rev d) as [| c r] eqn:E.
  - apply (f_equal (@rev N)) in E. rewrite rev_involutive in E. contradiction.
  - cbn. apply rev_involutive.
Qed.

Lemma digit_not_whitespace c : is_digit c = true -> is_whitespace c = false.
Proof.
  unfold is_digit. rewrite andb_true_iff, !N.leb_le. intros [H1 H2].
  unfold is_whitespace.
  replace (9 <=? c)%N with true by (symmetry; apply N.leb_le; lia).
  replace (c <=? 13)%N with false by (symmetry; apply N.leb_gt; lia).
  replace (0x2000 <=? c)%N with false by (symmetry; apply N.leb_gt; lia).
  repeat match goal with
         | |- context [(c =? ?k)%N] =>
             replace (c =? k)%N with false by (symmetry; apply N.eqb_neq; lia)
         end.
  reflexivity.
Qed.

(** Cleaning a trimmed, non-empty string followed by a colon and digits:
    the scheme is removed as without the port, and the port stays. *)
Lemma clean_with_port (h d : jsstring) :
  trim h = h -> h <> [] ->
  d <> [] -> Forall (fun c => is_digit c = true) d ->
  trim (h ++ 58%N :: d) = h ++ 58%N :: d
  /\ h ++ 58%N :: d <> []
  /\ strip_trailing_slashes (strip_wss (strip_http (h ++ 58%N :: d)))
     = strip_wss (strip_http h) ++ 58%N :: d.
Proof.
  intros Htrim Hne Hd Hdig.
  assert (Hu : port_text (58%N :: d)).
  { constructor; [lia |]. eapply Forall_impl; [exact Hdig |].
    intros x Hx. cbn beta in Hx. unfold is_digit in Hx.
    rewrite andb_true_iff, !N.leb_le in Hx. lia. }
  destruct (trim_fixed_ends h Htrim Hne) as (c0 & r & _ & Hh & Hc0 & _ & _).
  assert (Hlast : exists x, last d = Some x /\ is_digit x = true).
  { destruct (last d) as [x |] eqn:E;
      [| apply last_None in E; contradiction].
    exists x. split; [reflexivity |].
    rewrite Forall_forall in Hdig. apply Hdig.
    apply last_Some in E as [l' ->]. apply elem_of_app. right.
    apply list_elem_of_here. }
  destruct Hlast as (x & Hx & Hxd).
  assert (Hlast' : forall l : jsstring, last (l ++ 58%N :: d) = Some x).
  { intros l. change (58%N :: d) with ([58%N] ++ d).
    rewrite app_assoc, last_app, Hx. reflexivity. }
  assert (Hslash : is_slash x = false).
  { unfold is_digit in Hxd. rewrite andb_true_iff, !N.leb_le in Hxd.
    unfold is_slash. apply N.eqb_neq. lia. }
  split; [| split].
  - rewrite Hh. cbn [app]. apply trim_fixed with x;
      [exact Hc0 | | apply digit_not_whitespace, Hxd].
    rewrite <- (Hlast' (c0 :: r)). reflexivity.
  - rewrite Hh. discriminate.
  - unfold strip_http, strip_wss.
    rewrite !strip_scheme_port by
      (try exact Hu; change (str "http") with [104%N; 116%N; 116%N; 112%N];
       change (str "ws") with [119%N; 115%N]; repeat constructor; lia).
    apply strip_trailing_slashes_fixed with x; [apply Hlast' | exact Hslash].
Qed.

Lemma includes_colon (a d : jsstring) : includes (a ++ 58%N :: d) (str ":") = true.
Proof.
  induction a as [| b a IH]; [reflexivity |].
  cbn [app]. rewrite includes_cons, IH. apply orb_true_r.
Qed.

(** Property X1.  For a tunnel name the port is dropped.  Let [h] be
    trimmed and not empty, and let what is left of [h] after its scheme is
    removed be a tunnel name.  Then [h] followed by a colon and digits
    resolves to [wss://] and [https://] addresses of that name, without the
    port. *)
Theorem X1_tunnel_port_dropped (h d : jsstring) :
  trim h = h -> h <> [] ->
  d <> [] -> Forall (fun c => is_digit c = true) d ->
  isNgrok (strip_wss (strip_http h)) = true ->
  resolve (h ++ str ":" ++ d)
  = Some {| controlURL := str "wss://" ++ strip_wss (strip_http h);
            mediaBaseURL := str "https://" ++ strip_wss (strip_http h)
                            ++ str "/camera" |}.
Proof.
  intros Htrim Hne Hd Hdig Hngrok.
  change (str ":" ++ d) with (58%N :: d).
  destruct (clean_with_port h d Htrim Hne Hd Hdig) as (Ht & Hnil & Hclean).
  unfold resolve, isBlank, controlUrl, cameraUrl, cleanIP_control, cleanIP_camera.
  cbn zeta. rewrite Ht, Hclean.
  rewrite (isNgrok_app _ (58%N :: d) Hngrok).
  rewrite (strip_port_port _ d Hd Hdig).
  destruct (h ++ 58%N :: d); [contradiction | reflexivity].
Qed.

Lemma X1_tunnel_port_dropped_witness :
  resolve (str "0.tcp.ngrok.io" ++ str ":" ++ str "12345")
  = Some {| controlURL := str "wss://" ++ strip_wss (strip_http (str "0.tcp.ngrok.io"));
            mediaBaseURL := str "https://" ++ strip_wss (strip_http (str "0.tcp.ngrok.io"))
                            ++ str "/camera" |}.
Proof.
  apply (X1_tunnel_port_dropped (str "0.tcp.ngrok.io") (str "12345")).
  - reflexivity.
  - discriminate.
  - discriminate.
  - vm_compute. repeat constructor.
  - reflexivity.
Defined.

(** Property X2.  The address shown in the error hint is the address given
    to [new WebSocket], for every stored string. *)
Theorem X2_hint_is_control_url (piIP : jsstring) :
  tryingHint piIP = controlUrl piIP.
Proof.
  unfold tryingHint, controlUrl, cleanIP_control. cbn zeta.
  destruct (isNgrok _); [reflexivity |].
  destruct (includes _ _); reflexivity.
Qed.

(** Property X15.  An explicit port is kept for both addresses.  Let [h]
    be trimmed and not empty, and let it, with the port, not be a tunnel
    name.  Then [h] followed by a colon and digits resolves to [ws://] and
    [http://] addresses with that same port: the camera is asked on the
    port given for the control link. *)
Theorem X15_explicit_port_kept (h d : jsstring) :
  trim h = h -> h <> [] ->
  d <> [] -> Forall (fun c => is_digit c = true) d ->
  isNgrok (strip_wss (strip_http h) ++ str ":" ++ d) = false ->
  resolve (h ++ str ":" ++ d)
  = Some {| controlURL := str "ws://" ++ strip_wss (strip_http h) ++ str ":" ++ d;
            mediaBaseURL := str "http://" ++ strip_wss (strip_http h)
                            ++ str ":" ++ d ++ str "/camera" |}.
Proof.
  intros Htrim Hne Hd Hdig Hngrok.
  change (str ":" ++ d) with (58%N :: d) in *.
  destruct (clean_with_port h d Htrim Hne Hd Hdig) as (Ht & Hnil & Hclean).
  unfold resolve, isBlank, controlUrl, cameraUrl, cleanIP_control, cleanIP_camera.
  cbn zeta. rewrite Ht, Hclean, Hngrok, includes_colon.
  rewrite <- !app_assoc. cbn [app].
  destruct (h ++ 58%N :: d); [contradiction | reflexivity].
Qed.

Lemma X15_explicit_port_kept_witness :
  resolve (str "ws://192.168.1.100" ++ str ":" ++ str "9000")
  = Some {| controlURL := str "ws://" ++ strip_wss (strip_http (str "ws://192.168.1.100"))
                          ++ str ":" ++ str "9000";
            mediaBaseURL := str "http://"
                            ++ strip_wss (strip_http (str "ws://192.168.1.100"))
                            ++ str ":" ++ str "9000" ++ str "/camera" |}.
Proof.
  apply (X15_explicit_port_kept (str "ws://192.168.1.100") (str "9000")).
  - reflexivity.
  - discriminate.
  - discriminate.
  - vm_compute. repeat constructor.
  - reflexivity.
Defined.

(** ** One live socket *)

Lemma sockets_invariant_ext s s' :
  sockets s' = sockets s -> wsRef s' = wsRef s ->
  sockets_invariant s -> sockets_invariant s'.
Proof. intros Hk Hw. unfold sockets_invariant. rewrite Hk, Hw. tauto. Qed.

Lemma live_current s id k :
  wsRef s = Some id -> sockets s !! id = Some k -> live k = true ->
  current_readyState s = Some CONNECTING \/ current_readyState s = Some OPEN.
Proof.
  intros Hw Hk Hl. unfold current_readyState. rewrite Hw. cbn [mbind option_bind].
  rewrite Hk. cbn [fmap option_fmap option_map]. unfold live in Hl.
  destruct (readyState k); auto; discriminate.
Qed.

Lemma live_socket_close k : live (socket_close k) = false.
Proof. unfold socket_close, live. destruct (readyState k) eqn:E; cbn; rewrite ?E; reflexivity. Qed.

Lemma socket_url_close k : socket_url (socket_close k) = socket_url k.
Proof. unfold socket_close. destruct (readyState k); reflexivity. Qed.

Lemma sockets_invariant_connectToServer ip s :
  sockets_invariant s -> sockets_invariant (connectToServer ip s).
Proof.
  intros Hs.
  destruct (connectToServer_cases ip s)
    as [(_ & Hc & Ho & _ & ->) | (_ & [-> | ->])];
    [| exact Hs | revert Hs; apply sockets_invariant_ext; reflexivity].
  destruct Hs as [H1 H2]. split; cbn.
  - intros id k Hk Hl. apply lookup_app_Some in Hk as [Hk | [Hlen Hk]].
    + exfalso. pose proof (H1 id k Hk Hl) as Hw.
      destruct (live_current s id k Hw Hk Hl); contradiction.
    + apply list_lookup_singleton_Some in Hk as [Hz _].
      f_equal. lia.
  - apply Forall_app. split; [exact H2 | repeat constructor].
Qed.

Lemma sockets_invariant_close_current s :
  sockets_invariant s ->
  sockets_invariant
    match wsRef s with
    | Some i => set_wsRef None (set_sockets (alter socket_close i (sockets s)) s)
    | None => s
    end.
Proof.
  intros Hs. destruct (wsRef s) as [i |] eqn:Hw; [| exact Hs].
  destruct Hs as [H1 H2]. split; cbn.
  - intros id k Hk Hl. exfalso.
    destruct (decide (id = i)) as [-> | Hne].
    + rewrite list_lookup_alter_eq in Hk.
      destruct (sockets s !! i) as [k0 |]; [| discriminate].
      cbn in Hk. injection Hk as <-. rewrite live_socket_close in Hl. discriminate.
    + rewrite list_lookup_alter_ne in Hk by congruence.
      pose proof (H1 id k Hk Hl). congruence.
  - apply Forall_alter; [exact H2 |]. intros k _ Hk.
    rewrite socket_url_close, socket_piIP_close. exact Hk.
Qed.

Lemma sockets_invariant_clear_reconnect s :
  sockets_invariant s ->
  sockets_invariant
    match reconnectTimeoutRef s with
    | Some t => set_reconnectTimeoutRef None (clearTimeout t s)
    | None => s
    end.
Proof.
  intros Hs. destruct (reconnectTimeoutRef s); [| exact Hs].
  revert Hs. apply sockets_invariant_ext; reflexivity.
Qed.

Lemma sockets_invariant_set_readyState s id k r :
  sockets s !! id = Some k ->
  (live (set_readyState r k) = true -> wsRef s = Some id) ->
  sockets_invariant s ->
  sockets_invariant (set_sockets (<[id := set_readyState r k]> (sockets s)) s).
Proof.
  intros Hk Hr [H1 H2]. split; cbn.
  - intros j kj Hj Hl.
    apply list_lookup_insert_Some in Hj as [(<- & <- & _) | [_ Hj]];
      [apply Hr, Hl | apply (H1 j kj Hj Hl)].
  - apply Forall_insert; [exact H2 |]. cbn.
    rewrite Forall_forall in H2. apply H2, list_elem_of_lookup. eauto.
Qed.

Lemma sockets_invariant_ws_onopen id s :
  sockets_invariant s -> sockets_invariant (ws_onopen id s).
Proof.
  intros Hs. unfold ws_onopen.
  destruct (sockets s !! id) as [k |] eqn:Hk; [| exact Hs].
  destruct (readyState k) eqn:Hstate; try exact Hs.
  apply (sockets_invariant_clear_reconnect
           (setConnectionAttempts 0
              (setConnectionError NoError
                 (setIsConnected true
                    (set_sockets (<[id:=set_readyState OPEN k]> (sockets s)) s))))).
  eapply sockets_invariant_ext;
    [| | apply (sockets_invariant_set_readyState s id k OPEN Hk); [| exact Hs]];
    try reflexivity.
  intros _. apply (proj1 Hs id k Hk). unfold live. rewrite Hstate. reflexivity.
Qed.

Lemma ws_onclose_sockets id code s :
  wsRef (ws_onclose id code s) = wsRef s
  /\ (sockets (ws_onclose id code s) = sockets s
      \/ exists k, sockets s !! id = Some k
                   /\ sockets (ws_onclose id code s)
                      = <[id := set_readyState CLOSED k]> (sockets s)).
Proof.
  unfold ws_onclose. destruct (sockets s !! id) as [k |] eqn:Hk; [| auto].
  destruct (readyState k); try (split; [reflexivity | left; reflexivity]);
    cbn; destruct (bool_decide _ && _); cbn;
    try destruct (5 <=? connectionAttempts s); cbn;
    (split; [reflexivity | right; exists k; split; reflexivity]).
Qed.

Lemma sockets_invariant_ws_onclose id code s :
  sockets_invariant s -> sockets_invariant (ws_onclose id code s).
Proof.
  intros Hs. destruct (ws_onclose_sockets id code s) as [Hw [Hk | (k & Hk & Hk')]].
  - revert Hs. apply sockets_invariant_ext; assumption.
  - apply (sockets_invariant_ext
             (set_sockets (<[id:=set_readyState CLOSED k]> (sockets s)) s));
      [exact Hk' | exact Hw
      | apply (sockets_invariant_set_readyState s id k CLOSED Hk); [| exact Hs]].
    discriminate.
Qed.

Lemma sockets_invariant_ws_onerror id s :
  sockets_invariant s -> sockets_invariant (ws_onerror id s).
Proof.
  destruct (ws_onerror_frame id s) as (Hk & Hw & _).
  apply sockets_invariant_ext; assumption.
Qed.

Lemma sockets_invariant_timer_fire t s :
  sockets_invariant s -> sockets_invariant (timer_fire t s).
Proof.
  intros Hs. unfold timer_fire. destruct (timers s !! t) as [tm |]; [| exact Hs].
  destruct (timer_kind tm); apply sockets_invariant_connectToServer;
    revert Hs; apply sockets_invariant_ext; reflexivity.
Qed.

Lemma sockets_invariant_setPiIP ip s :
  sockets_invariant s -> sockets_invariant (setPiIP ip s).
Proof.
  intros Hs. unfold setPiIP, effect_connect. destruct (decide _); [exact Hs |].
  assert (H : sockets_invariant (effect_cleanup (set_piIP ip s))).
  { unfold effect_cleanup.
    apply sockets_invariant_close_current, sockets_invariant_clear_reconnect.
    revert Hs. apply sockets_invariant_ext; reflexivity. }
  destruct (_ && _); [apply sockets_invariant_connectToServer, H | exact H].
Qed.

Lemma sockets_invariant_handleSaveSettings tempIP s :
  sockets_invariant s -> sockets_invariant (handleSaveSettings tempIP s).
Proof.
  intros Hs. unfold handleSaveSettings.
  destruct (trim tempIP) as [| c r];
    [revert Hs; apply sockets_invariant_ext; reflexivity |].
  cbn. apply sockets_invariant_setPiIP.
  eapply sockets_invariant_ext;
    [| | apply sockets_invariant_close_current,
           sockets_invariant_clear_reconnect, Hs]; reflexivity.
Qed.

Lemma sockets_invariant_step e s :
  sockets_invariant s -> sockets_invariant (step e s).
Proof.
  intros Hs. destruct e; cbn [step].
  - unfold loadSavedIP. destruct saved as [[| c r] |]; try exact Hs.
    apply sockets_invariant_setPiIP, Hs.
  - apply sockets_invariant_handleSaveSettings, Hs.
  - apply sockets_invariant_timer_fire, Hs.
  - apply sockets_invariant_ws_onopen, Hs.
  - apply sockets_invariant_ws_onclose, Hs.
  - apply sockets_invariant_ws_onerror, Hs.
  - revert Hs. apply sockets_invariant_ext; unfold handleThrottleChange, sendCommand;
      repeat (case_match; cbn; try reflexivity).
  - revert Hs. apply sockets_invariant_ext; unfold handleBrakeChange, sendCommand;
      repeat (case_match; cbn; try reflexivity).
  - revert Hs. apply sockets_invariant_ext; unfold handleSteeringChange, sendCommand;
      repeat (case_match; cbn; try reflexivity).
  - revert Hs. apply sockets_invariant_ext; unfold handleHonkPress, sendCommand;
      repeat (case_match; cbn; try reflexivity).
  - revert Hs. apply sockets_invariant_ext; unfold handleHonkRelease, sendCommand;
      repeat (case_match; cbn; try reflexivity).
  - revert Hs. apply sockets_invariant_ext; unfold setGear, settings_effect;
      repeat (case_match; cbn; try reflexivity).
  - revert Hs. apply sockets_invariant_ext; unfold toggleLights, settings_effect;
      repeat (case_match; cbn; try reflexivity).
  - revert Hs. apply sockets_invariant_ext; unfold toggleAuto, settings_effect;
      repeat (case_match; cbn; try reflexivity).
Qed.

Lemma sockets_invariant_thrown c ip s :
  sockets_invariant (connectToServer ip s) ->
  sockets_invariant (connectToServer_with c ip s).
Proof.
  destruct c; [exact (fun H => H) |].
  unfold connectToServer, connectToServer_with.
  destruct (isBlank ip); [exact (fun H => H) |].
  destruct (current_readyState s) as [[]|]; try exact (fun H => H);
    (destruct (reconnectTimeoutRef s); [exact (fun H => H) |]);
    intros [H1 H2]; cbn in H1, H2;
    (split; cbn; [| apply Forall_app in H2 as [H2 _]; exact H2]);
    intros id k Hk Hl; exfalso;
    pose proof (lookup_lt_Some _ _ _ Hk) as Hlt;
    specialize (H1 id k); rewrite lookup_app_l in H1 by exact Hlt;
    specialize (H1 Hk Hl); injection H1 as H1; lia.
Qed.

Lemma sockets_invariant_step_with c e s :
  sockets_invariant s -> sockets_invariant (step_with c e s).
Proof.
  intros Hs. pose proof (sockets_invariant_step e s Hs) as H.
  destruct (step_with_shape c e s) as [-> | (ip & s0 & E & ->)]; [exact H |].
  apply sockets_invariant_thrown. rewrite <- E. exact H.
Qed.

Lemma reachable_sockets_invariant s : reachable s -> sockets_invariant s.
Proof.
  induction 1 as [| e s _ IH | c e s _ IH];
    [| apply sockets_invariant_step, IH | apply sockets_invariant_step_with, IH].
  split; [intros id k Hk; discriminate | constructor].
Qed.

(** Property X3.  In every reachable state at most one socket is
    connecting or open, and it is the one held in [wsRef]. *)
Theorem X3_one_live_socket (s : App) (id1 id2 : nat) (k1 k2 : Socket) :
  reachable s ->
  sockets s !! id1 = Some k1 -> live k1 = true ->
  sockets s !! id2 = Some k2 -> live k2 = true ->
  id1 = id2 /\ wsRef s = Some id1.
Proof.
  intros Hs H1 L1 H2 L2.
  destruct (reachable_sockets_invariant s Hs) as [Hlive _].
  pose proof (Hlive id1 k1 H1 L1) as E1.
  pose proof (Hlive id2 k2 H2 L2) as E2.
  split; [congruence | exact E1].
Qed.

Lemma X3_one_live_socket_witness :
  (1 = 1 /\ wsRef two_sockets_sample = Some 1)%nat.
Proof.
  assert (Hr : reachable two_sockets_sample)
    by (apply reachable_run, reachable_initial).
  apply (X3_one_live_socket two_sockets_sample 1 1
           {| readyState := CONNECTING;
              socket_url := str "ws://10.0.0.7:8765";
              socket_piIP := str "10.0.0.7" |}
           {| readyState := CONNECTING;
              socket_url := str "ws://10.0.0.7:8765";
              socket_piIP := str "10.0.0.7" |} Hr);
    vm_compute; reflexivity.
Defined.

(** Property X4.  In every reachable state each socket, whatever its state,
    was created with the address that [connectToServer] computes from the
    [piIP] its handlers captured, and that [piIP] is not blank: no socket is
    ever created for an empty address. *)
Theorem X4_socket_urls (s : App) (id : nat) (k : Socket) :
  reachable s -> sockets s !! id = Some k ->
  socket_url k = controlUrl (socket_piIP k)
  /\ isBlank (socket_piIP k) = false.
Proof.
  intros Hs Hk.
  destruct (reachable_sockets_invariant s Hs) as [_ Hurl].
  destruct (reachable_link_invariant s Hs) as (_ & _ & Hip).
  rewrite Forall_forall in Hurl, Hip.
  assert (Hin : k ∈ sockets s) by (apply list_elem_of_lookup; eauto).
  split; [apply Hurl, Hin | apply Hip, Hin].
Qed.

Lemma X4_socket_urls_witness :
  socket_url {| readyState := CLOSING;
                socket_url := str "ws://192.168.1.100:8765";
                socket_piIP := str "192.168.1.100" |}
  = controlUrl (str "192.168.1.100")
  /\ isBlank (str "192.168.1.100") = false.
Proof.
  assert (Hr : reachable two_sockets_sample)
    by (apply reachable_run, reachable_initial).
  apply (X4_socket_urls two_sockets_sample 0
           {| readyState := CLOSING;
              socket_url := str "ws://192.168.1.100:8765";
              socket_piIP := str "192.168.1.100" |} Hr).
  vm_compute. reflexivity.
Defined.

(** Property X5.  Nothing is sent, and nothing is kept for later, unless
    the current socket is open: whatever the event, the list of sent
    messages stays as it is. *)
Theorem X5_closed_link_sends_nothing (e : Event) (s : App) :
  current_readyState s <> Some OPEN -> sent (step e s) = sent s.
Proof.
  intros Hc. pose proof (sent_link_events e s) as Hlink.
  destruct e; try exact Hlink; cbn [step].
  - unfold handleThrottleChange. destruct (0 <=? value);
      rewrite !sendCommand_not_open; try reflexivity;
      rewrite ?sendCommand_not_open; exact Hc.
  - unfold handleBrakeChange. rewrite sendCommand_not_open; [reflexivity | exact Hc].
  - unfold handleSteeringChange. destruct (0 <=? value);
      rewrite !sendCommand_not_open; try reflexivity;
      rewrite ?sendCommand_not_open; exact Hc.
  - unfold handleHonkPress. rewrite sendCommand_not_open; [reflexivity | exact Hc].
  - unfold handleHonkRelease. rewrite sendCommand_not_open; [reflexivity | exact Hc].
  - unfold setGear, settings_effect. case_decide; [reflexivity |].
    rewrite current_readyState_set_controls.
    destruct (current_readyState s) as [[]|]; try reflexivity. congruence.
  - unfold toggleLights, settings_effect.
    rewrite current_readyState_set_controls.
    destruct (current_readyState s) as [[]|]; try reflexivity. congruence.
  - unfold toggleAuto, settings_effect.
    rewrite current_readyState_set_controls.
    destruct (current_readyState s) as [[]|]; try reflexivity. congruence.
Qed.

Lemma X5_closed_link_sends_nothing_witness :
  sent (step (ThrottleChange 50) first_attempt_sample) = sent first_attempt_sample.
Proof.
  apply (X5_closed_link_sends_nothing (ThrottleChange 50) first_attempt_sample).
  vm_compute. discriminate.
Defined.

(** Property X6.  When a connecting socket opens in a reachable state, it
    is the current socket, so the link can send at once; the attempt count
    is 0, the error text is cleared, and no reconnect timer is left
    pending. *)
Theorem X6_open_resets (s : App) (id : nat) (k : Socket) :
  reachable s -> sockets s !! id = Some k -> readyState k = CONNECTING ->
  let s' := ws_onopen id s in
  current_readyState s' = Some OPEN
  /\ isConnected s' = true
  /\ connectionAttempts s' = 0
  /\ connectionError s' = NoError
  /\ reconnectTimeoutRef s' = None
  /\ pending_reconnects s' = ∅.
Proof.
  intros Hs Hk Hstate s'.
  destruct (reachable_sockets_invariant s Hs) as [Hlive _].
  assert (Hw : wsRef s = Some id)
    by (apply (Hlive id k Hk); unfold live; rewrite Hstate; reflexivity).
  assert (Hinv : link_invariant s')
    by (apply link_invariant_ws_onopen, reachable_link_invariant, Hs).
  assert (Hfields : current_readyState s' = Some OPEN
                    /\ isConnected s' = true
                    /\ connectionAttempts s' = 0
                    /\ connectionError s' = NoError
                    /\ reconnectTimeoutRef s' = None).
  { subst s'. unfold ws_onopen. rewrite Hk, Hstate. cbn.
    destruct (reconnectTimeoutRef s) as [t |] eqn:Hr; cbn;
      (split; [| repeat split]); try exact Hr; rewrite Hw; cbn;
      rewrite list_lookup_insert_eq by (eapply lookup_lt_Some; eauto);
      reflexivity. }
  destruct Hfields as (F1 & F2 & F3 & F4 & F5).
  repeat split; try assumption.
  apply pending_reconnects_empty; assumption.
Qed.

Lemma X6_open_resets_witness :
  current_readyState (ws_onopen 0 first_attempt_sample) = Some OPEN
  /\ connectionAttempts (ws_onopen 0 first_attempt_sample) = 0.
Proof.
  assert (Hr : reachable first_attempt_sample)
    by (apply reachable_run, reachable_initial).
  pose proof (X6_open_resets first_attempt_sample 0
                {| readyState := CONNECTING;
                   socket_url := str "ws://192.168.1.100:8765";
                   socket_piIP := str "192.168.1.100" |} Hr) as H.
  destruct H as (H1 & _ & H3 & _); [vm_compute; reflexivity | reflexivity |].
  split; assumption.
Defined.

(** ** Saving an address *)

(** Property X7.  Saving a new address while the link is open (and shown as
    connected) does not connect to it.  The open socket is closed and no
    socket is created, since the effect still sees the connected flag.  When
    the close event of the old socket arrives, it schedules a reconnect after
    3000 ms with the address that socket had captured; that reconnect
    opens a socket to the old address, while [piIP] holds the new one. *)
Theorem X7_save_while_open
        (s : App) (tempIP : jsstring) (id : nat) (k : Socket) (code : Z) :
  wsRef s = Some id -> sockets s !! id = Some k -> readyState k = OPEN ->
  isConnected s = true -> reconnectTimeoutRef s = None ->
  isBlank (socket_piIP k) = false ->
  trim tempIP <> [] -> trim tempIP <> piIP s ->
  let r := handleSaveSettings tempIP s in
  let r1 := ws_onclose id code r in
  let r2 := reconnect_fires r1 in
  (piIP r = trim tempIP
   /\ wsRef r = None
   /\ sockets r = alter socket_close id (sockets s)
   /\ sockets r !! id = Some (set_readyState CLOSING k))
  /\ (reconnectTimeoutRef r1 = Some (S (next_timer s))
      /\ timers r1 !! S (next_timer s)
         = Some {| timer_kind := ReconnectTimer; timer_delay := 3000;
                   timer_piIP := socket_piIP k |})
  /\ (piIP r2 = trim tempIP
      /\ wsRef r2 = Some (length (sockets s))
      /\ sockets r2 !! length (sockets s)
         = Some {| readyState := CONNECTING;
                   socket_url := controlUrl (socket_piIP k);
                   socket_piIP := socket_piIP k |}).
Proof.
  intros Hw Hk Hstate Hconn Hr Hip Hne Hnew r r1 r2.
  assert (Hlt : (id < length (sockets s))%nat) by (eapply lookup_lt_Some; eauto).
  assert (Hclose : alter socket_close id (sockets s) !! id
                   = Some (set_readyState CLOSING k)).
  { rewrite list_lookup_alter_eq, Hk. cbn. unfold socket_close.
    rewrite Hstate. reflexivity. }
  assert (Er : r = set_piIP (trim tempIP)
                     (set_timers
                        (<[next_timer s := {| timer_kind := SaveSettingsTimer;
                                              timer_delay := 500;
                                              timer_piIP := piIP s |}]> (timers s))
                        (S (next_timer s))
                        (setConnectionAttempts 0
                           (set_wsRef None
                              (set_sockets (alter socket_close id (sockets s)) s))))).
  { subst r. unfold handleSaveSettings.
    destruct (trim tempIP) as [| c t] eqn:Htrim; [congruence |].
    destruct s as [ctl ip conn err att socks ws tms nt ref snt].
    cbn in Hw, Hconn, Hr, Hnew. subst ws conn ref.
    unfold disconnectFromServer, setTimeout, setPiIP. cbn.
    case_decide; [congruence |]. reflexivity. }
  assert (Er1 : r1 = set_reconnectTimeoutRef (Some (S (next_timer s)))
                       (set_timers
                          (<[S (next_timer s) :=
                               {| timer_kind := ReconnectTimer;
                                  timer_delay := backoffDelay 0;
                                  timer_piIP := socket_piIP k |}]> (timers r))
                          (S (S (next_timer s)))
                          (setConnectionError
                             (if code =? 1006
                              then if includes (cleanIP_control (socket_piIP k))
                                        (str ".ngrok")
                                   then NgrokConnectionFailed
                                   else ConnectionFailedServer
                              else if code =? 1000 then ClosedNormally
                                   else ClosedWithCode code)
                             (setIsConnected false
                                (set_sockets
                                   (<[id := set_readyState CLOSED
                                              (set_readyState CLOSING k)]>
                                      (sockets r)) r))))).
  { subst r1. unfold ws_onclose. rewrite Er at 1 2. cbn [sockets set_piIP set_timers
      setConnectionAttempts set_wsRef set_sockets].
    rewrite Hclose. cbn [readyState set_readyState].
    rewrite Er. cbn. rewrite (bool_decide_eq_true_2 _ Hr). reflexivity. }
  split; [| split].
  - rewrite Er. cbn. repeat split. exact Hclose.
  - rewrite Er1. cbn. split; [reflexivity |]. apply lookup_insert_eq.
  - subst r2. unfold reconnect_fires, timer_fire. rewrite Er1. cbn.
    rewrite lookup_insert_eq. cbn.
    rewrite connectToServer_attempt; try exact Hip; try reflexivity;
      [| rewrite Er; cbn; discriminate ..].
    rewrite Er. cbn. rewrite !length_insert, length_alter. repeat split.
    rewrite lookup_app_r by (rewrite length_insert, length_alter; lia).
    rewrite length_insert, length_alter, Nat.sub_diag. reflexivity.
Qed.

Lemma X7_save_while_open_witness :
  let r2 := reconnect_fires
              (ws_onclose 0 1000
                 (handleSaveSettings (str "10.0.0.7") connected_sample)) in
  piIP r2 = trim (str "10.0.0.7")
  /\ wsRef r2 = Some 1%nat
  /\ sockets r2 !! 1%nat
     = Some {| readyState := CONNECTING;
               socket_url := controlUrl (str "192.168.1.100");
               socket_piIP := str "192.168.1.100" |}.
Proof.
  apply (X7_save_while_open connected_sample (str "10.0.0.7") 0
           {| readyState := OPEN; socket_url := str "ws://192.168.1.100:8765";
              socket_piIP := str "192.168.1.100" |} 1000);
    vm_compute; solve [reflexivity | discriminate].
Defined.

Lemma piIP_connectToServer ip s : piIP (connectToServer ip s) = piIP s.
Proof.
  destruct (connectToServer_cases ip s) as [(_ & _ & _ & _ & ->) | (_ & [-> | ->])];
    reflexivity.
Qed.

Lemma piIP_effect_cleanup s : piIP (effect_cleanup s) = piIP s.
Proof.
  unfold effect_cleanup.
  destruct (reconnectTimeoutRef s); cbn; destruct (wsRef s); reflexivity.
Qed.

Lemma piIP_disconnectFromServer s : piIP (disconnectFromServer s) = piIP s.
Proof.
  unfold disconnectFromServer.
  destruct (reconnectTimeoutRef s); cbn; destruct (wsRef s); reflexivity.
Qed.

(** Property X8.  [handleSaveSettings] rejects a blank entry without
    touching the link: only the error text changes.  Any other entry is
    stored trimmed, whatever the state of the link; and on a trimmed address
    the clean-up of the camera component, which does not trim, gives the
    same text as the clean-up of [connectToServer], so both addresses are
    built from the same host. *)
Theorem X8_saved_address (tempIP : jsstring) (s : App) :
  (trim tempIP = [] ->
   handleSaveSettings tempIP s = setConnectionError IPEmpty s)
  /\ (trim tempIP <> [] ->
      let r := handleSaveSettings tempIP s in
      piIP r = trim tempIP
      /\ trim (piIP r) = piIP r
      /\ cleanIP_camera (piIP r) = cleanIP_control (piIP r)).
Proof.
  split.
  - intros H. unfold handleSaveSettings. rewrite H. reflexivity.
  - intros Hne r.
    assert (Hp : piIP r = trim tempIP).
    { subst r. unfold handleSaveSettings.
      destruct (trim tempIP) as [| c t] eqn:Htrim; [congruence |].
      unfold setTimeout. cbv beta iota zeta. unfold setPiIP.
      case_decide as E.
      - change (c :: t = piIP (disconnectFromServer s)) in E.
        change (piIP (disconnectFromServer s) = c :: t).
        symmetry. exact E.
      - unfold effect_connect. destruct (_ && _);
          rewrite ?piIP_connectToServer, piIP_effect_cleanup; reflexivity. }
    rewrite Hp. split; [reflexivity |]. split; [apply trim_idem |].
    unfold cleanIP_control. rewrite trim_idem. reflexivity.
Qed.

Lemma X8_saved_address_witness :
  piIP (handleSaveSettings (str "  http://10.0.0.7/ ") first_attempt_sample)
  = trim (str "  http://10.0.0.7/ ")
  /\ cleanIP_camera (piIP (handleSaveSettings (str "  http://10.0.0.7/ ")
                             first_attempt_sample))
     = cleanIP_control (piIP (handleSaveSettings (str "  http://10.0.0.7/ ")
                                first_attempt_sample)).
Proof.
  destruct (proj2 (X8_saved_address (str "  http://10.0.0.7/ ")
                     first_attempt_sample)) as (H1 & _ & H3).
  - vm_compute. discriminate.
  - split; assumption.
Defined.

(** ** The other commands *)

(** Property X9.  On an open link a steering change sends the right half
    and then the left half, [max v 0] and [max (-v) 0]; a brake change sends
    one [brake] message with the value; pressing and releasing the horn send
    [honk] with [true] and [false].  Each message carries the gear, lights
    and auto mode of the moment. *)
Theorem X9_steering_brake_honk (v : Z) (s : App) :
  current_readyState s = Some OPEN ->
  sent (handleSteeringChange v s)
  = sent s ++ [ command_message (str "steering_right") (JSNum (Z.max v 0)) (controls s);
                command_message (str "steering_left") (JSNum (Z.max (- v) 0)) (controls s) ]
  /\ sent (handleBrakeChange v s)
     = sent s ++ [command_message (str "brake") (JSNum v) (controls s)]
  /\ sent (handleHonkPress s)
     = sent s ++ [command_message (str "honk") (JSBool true) (controls s)]
  /\ sent (handleHonkRelease s)
     = sent s ++ [command_message (str "honk") (JSBool false) (controls s)].
Proof.
  intros Hopen. repeat split.
  - unfold handleSteeringChange.
    destruct (Z.leb_spec 0 v) as [Hv | Hv];
      (rewrite (sendCommand_open (str "steering_left"))
         by (rewrite current_readyState_sendCommand; exact Hopen));
      rewrite sendCommand_open by exact Hopen; cbn;
      rewrite <- app_assoc; cbn [app]; unfold command_message; cbn;
      repeat f_equal; lia.
  - unfold handleBrakeChange. rewrite sendCommand_open by exact Hopen. reflexivity.
  - unfold handleHonkPress. rewrite sendCommand_open by exact Hopen. reflexivity.
  - unfold handleHonkRelease. rewrite sendCommand_open by exact Hopen. reflexivity.
Qed.

Lemma X9_steering_brake_honk_witness :
  sent (handleSteeringChange (-30) connected_sample)
  = sent connected_sample
    ++ [ command_message (str "steering_right") (JSNum (Z.max (-30) 0))
           (controls connected_sample);
         command_message (str "steering_left") (JSNum (Z.max (- -30) 0))
           (controls connected_sample) ].
Proof.
  apply (X9_steering_brake_honk (-30) connected_sample). reflexivity.
Defined.

(** Property X10.  Selecting the gear that is already selected does
    nothing.  Selecting another gear on an open link sends one [settings]
    message with the new gear, and a command sent afterwards carries the new
    gear together with the unchanged lights and auto mode. *)
Theorem X10_gear_change (g : Gear) (v : Z) (s : App) :
  current_readyState s = Some OPEN ->
  (g = gear (controls s) -> setGear g s = s)
  /\ (g <> gear (controls s) ->
      exists m1 m2,
        sent (handleBrakeChange v (setGear g s)) = sent s ++ [m1; m2]
        /\ field (str "type") m1 = Some (JSStr (str "settings"))
        /\ field (str "gear") m1 = Some (JSNum (gear_number g))
        /\ field (str "type") m2 = Some (JSStr (str "brake"))
        /\ field (str "value") m2 = Some (JSNum v)
        /\ field (str "gear") m2 = Some (JSNum (gear_number g))
        /\ field (str "lights") m2 = Some (JSBool (lightsOn (controls s)))
        /\ field (str "auto") m2 = Some (JSBool (autoMode (controls s)))).
Proof.
  intros Hopen. split; intros Hg.
  - unfold setGear. case_decide; [reflexivity | contradiction].
  - assert (Hset : setGear g s
                   = settings_effect
                       (set_controls
                          {| throttle := throttle (controls s);
                             brake := brake (controls s);
                             steering := steering (controls s);
                             gear := g;
                             honkPressed := honkPressed (controls s);
                             lightsOn := lightsOn (controls s);
                             autoMode := autoMode (controls s) |} s)).
    { unfold setGear. case_decide; [contradiction | reflexivity]. }
    rewrite Hset. unfold settings_effect.
    rewrite current_readyState_set_controls, Hopen.
    unfold handleBrakeChange. rewrite sendCommand_open by exact Hopen.
    eexists _, _. split; [cbn; rewrite <- app_assoc; reflexivity |].
    repeat split.
Qed.

Lemma X10_gear_change_witness :
  exists m1 m2,
    sent (handleBrakeChange 80 (setGear Gear3 connected_sample))
    = sent connected_sample ++ [m1; m2]
    /\ field (str "gear") m2 = Some (JSNum (gear_number Gear3)).
Proof.
  destruct (proj2 (X10_gear_change Gear3 80 connected_sample eq_refl))
    as (m1 & m2 & H1 & _ & _ & _ & _ & H6 & _).
  - discriminate.
  - exists m1, m2. split; assumption.
Defined.

(** ** The overlay over a whole gesture *)

Lemma overlay_step_stored w g o :
  let o' := overlay_step w g o in
  (stored_position o' = Some (cameraPosition o')
   \/ (stored_position o' = stored_position o
       /\ cameraPosition o' = cameraPosition o))
  /\ (stored_size o' = Some (cameraSize o')
      \/ (stored_size o' = stored_size o /\ cameraSize o' = cameraSize o)).
Proof.
  cbn zeta. unfold stored_position, stored_size.
  destruct g; cbn; rewrite ?omap_app; cbn; rewrite ?app_nil_r, ?last_snoc; auto.
Qed.

(** Property X11.  Storage follows the overlay.  If the stored position and
    size, where present, are those of the overlay, then after any sequence
    of gestures they still are; and a position or size that has no stored
    value has not changed.  So what a later start reads back is the
    rectangle last shown. *)
Theorem X11_storage_follows_overlay (w : Window) (gs : list Gesture) (o : Overlay) :
  (forall pos, stored_position o = Some pos -> pos = cameraPosition o) ->
  (forall size, stored_size o = Some size -> size = cameraSize o) ->
  let o' := overlay_run w gs o in
  (forall pos, stored_position o' = Some pos -> pos = cameraPosition o')
  /\ (forall size, stored_size o' = Some size -> size = cameraSize o')
  /\ (stored_position o' = None -> cameraPosition o' = cameraPosition o)
  /\ (stored_size o' = None -> cameraSize o' = cameraSize o).
Proof.
  intros Hp Hz. cbn zeta.
  induction gs as [| g gs IH] using rev_ind; [cbn; auto |].
  unfold overlay_run in *. rewrite foldl_app. cbn [foldl].
  set (o1 := foldl _ o gs) in *.
  destruct IH as (I1 & I2 & I3 & I4).
  destruct (overlay_step_stored w g o1) as [Hpos Hsize].
  cbn zeta in Hpos, Hsize.
  split; [| split; [| split]].
  - intros pos E. destruct Hpos as [H | [H1 H2]]; [congruence |].
    rewrite H2. apply I1. congruence.
  - intros size E. destruct Hsize as [H | [H1 H2]]; [congruence |].
    rewrite H2. apply I2. congruence.
  - intros E. destruct Hpos as [H | [H1 H2]]; [congruence |].
    rewrite H2. apply I3. congruence.
  - intros E. destruct Hsize as [H | [H1 H2]]; [congruence |].
    rewrite H2. apply I4. congruence.
Qed.

Lemma X11_storage_follows_overlay_witness :
  let o' := overlay_run window_400x800
              [DragGrant; DragMove 30 40; DragRelease 60 70; ResizeGrant;
               ResizeMove 10 10; ResizeMove 20 5; ResizeRelease]
              overlay_300x200 in
  stored_position o' = Some (cameraPosition o')
  /\ stored_size o' = Some (cameraSize o').
Proof.
  intros o'.
  destruct (X11_storage_follows_overlay window_400x800
              [DragGrant; DragMove 30 40; DragRelease 60 70; ResizeGrant;
               ResizeMove 10 10; ResizeMove 20 5; ResizeRelease]
              overlay_300x200) as (H1 & H2 & _).
  - intros pos H. discriminate H.
  - intros size H. discriminate H.
  - split; reflexivity.
Defined.

Lemma resize_moves_keep_initialSize w (moves : list (Z * Z)) o :
  initialSize (overlay_run w (map (fun d => ResizeMove d.1 d.2) moves) o)
  = initialSize o
  /\ cameraPosition (overlay_run w (map (fun d => ResizeMove d.1 d.2) moves) o)
     = cameraPosition o.
Proof.
  unfold overlay_run. revert o.
  induction moves as [| [dx dy] moves IH]; intros o; [split; reflexivity |].
  cbn [map foldl]. rewrite (proj1 (IH _)), (proj2 (IH _)). split; reflexivity.
Qed.

(** Property X12.  During a resize the size depends only on the size at the
    start of the gesture and on the latest move: after the grant and any
    moves, a further move by [(dx, dy)] gives the size at the grant plus
    [(dx, dy)], clamped; the earlier moves do not add up, and the position
    is the one before the gesture. *)
Theorem X12_resize_is_relative
        (w : Window) (moves : list (Z * Z)) (dx dy : Z) (o : Overlay) :
  let o' := resize_move w dx dy
              (overlay_run w (map (fun d => ResizeMove d.1 d.2) moves)
                 (resize_grant o)) in
  cameraSize o'
  = {| sz_width := Z.max 150 (Z.min (width w - 40) (sz_width (cameraSize o) + dx));
       sz_height := Z.max 100 (Z.min (height w - 100) (sz_height (cameraSize o) + dy)) |}
  /\ cameraPosition o' = cameraPosition o.
Proof.
  cbn zeta. unfold resize_move at 1 2.
  destruct (resize_moves_keep_initialSize w moves (resize_grant o)) as [Hi Hp].
  cbn [cameraSize cameraPosition onSizeChange]. rewrite Hi, Hp. split; reflexivity.
Qed.

(** Property X13.  During a drag the view follows the finger without
    clamping: after the grant and a move it is drawn at the old position plus
    the move.  On release the view is drawn exactly at the committed
    position, and a further release without movement leaves that position
    where it is. *)
Theorem X13_drag_preview_and_commit (w : Window) (dx dy : Z) (o : Overlay) :
  displayed_position (drag_move dx dy (drag_grant o))
  = {| x := x (cameraPosition o) + dx; y := y (cameraPosition o) + dy |}
  /\ displayed_position (drag_release w dx dy o)
     = cameraPosition (drag_release w dx dy o)
  /\ cameraPosition (drag_release w 0 0 (drag_release w dx dy o))
     = cameraPosition (drag_release w dx dy o).
Proof.
  unfold displayed_position, drag_move, drag_grant, drag_release. cbn.
  repeat split; f_equal; lia.
Qed.

(** ** The delays that occur *)

(** The invariant survives when no timer is added and the count stays
    non-negative. *)
Lemma delays_invariant_sub s s' :
  0 <= connectionAttempts s' ->
  (forall t tm, timers s' !! t = Some tm -> timers s !! t = Some tm) ->
  delays_invariant s -> delays_invariant s'.
Proof.
  intros Ha Ht [_ H]. split; [exact Ha |]. intros t tm E. apply (H t), Ht, E.
Qed.

Lemma delays_invariant_connectToServer ip s :
  delays_invariant s -> delays_invariant (connectToServer ip s).
Proof.
  intros Hs. pose proof (proj1 Hs) as Ha.
  destruct (connectToServer_cases ip s) as [(_ & _ & _ & _ & ->) | (_ & [-> | ->])];
    [| exact Hs |]; (revert Hs; apply delays_invariant_sub; cbn; [lia | auto]).
Qed.

Lemma delays_invariant_clear_reconnect s :
  delays_invariant s ->
  delays_invariant
    match reconnectTimeoutRef s with
    | Some t => set_reconnectTimeoutRef None (clearTimeout t s)
    | None => s
    end.
Proof.
  intros Hs. destruct (reconnectTimeoutRef s) as [t0 |]; [| exact Hs].
  pose proof (proj1 Hs) as Ha. revert Hs. apply delays_invariant_sub; cbn;
    [exact Ha |].
  intros t tm E. apply lookup_delete_Some in E as [_ E]. exact E.
Qed.

Lemma delays_invariant_close_current s :
  delays_invariant s ->
  delays_invariant
    match wsRef s with
    | Some i => set_wsRef None (set_sockets (alter socket_close i (sockets s)) s)
    | None => s
    end.
Proof. intros Hs. destruct (wsRef s); exact Hs. Qed.

Lemma delays_invariant_ws_onopen id s :
  delays_invariant s -> delays_invariant (ws_onopen id s).
Proof.
  intros Hs. unfold ws_onopen.
  destruct (sockets s !! id) as [k |]; [| exact Hs].
  destruct (readyState k); try exact Hs.
  apply (delays_invariant_clear_reconnect
           (setConnectionAttempts 0
              (setConnectionError NoError
                 (setIsConnected true
                    (set_sockets (<[id:=set_readyState OPEN k]> (sockets s)) s))))).
  revert Hs. apply delays_invariant_sub; cbn; [lia | auto].
Qed.

Lemma ws_onclose_timers id code s :
  connectionAttempts (ws_onclose id code s) = connectionAttempts s
  /\ (timers (ws_onclose id code s) = timers s
      \/ (connectionAttempts s < 5
          /\ exists ip,
               timers (ws_onclose id code s)
               = <[next_timer s := {| timer_kind := ReconnectTimer;
                                      timer_delay := backoffDelay (connectionAttempts s);
                                      timer_piIP := ip |}]> (timers s))).
Proof.
  unfold ws_onclose. destruct (sockets s !! id) as [k |]; [| auto].
  destruct (readyState k); try (split; [reflexivity | left; reflexivity]); cbn;
    (destruct (bool_decide (reconnectTimeoutRef s = None)); cbn;
     [| destruct (5 <=? connectionAttempts s); cbn; auto]);
    (destruct (Z.ltb_spec (connectionAttempts s) 5) as [Hlt | Hge]; cbn;
     [ split; [reflexivity | right; split; [exact Hlt | eexists; reflexivity]]
     | destruct (5 <=? connectionAttempts s); cbn; auto ]).
Qed.

Lemma delays_invariant_ws_onclose id code s :
  delays_invariant s -> delays_invariant (ws_onclose id code s).
Proof.
  intros [Ha H]. destruct (ws_onclose_timers id code s) as [Ec [Et | (Hlt & ip & Et)]];
    (split; [rewrite Ec; exact Ha |]); rewrite Et; [exact H |].
  intros t tm E. apply lookup_insert_Some in E as [[_ <-] | [_ E]]; [| apply (H t), E].
  cbn. exists (connectionAttempts s). split; [lia |].
  unfold backoffDelay. lia.
Qed.

Lemma delays_invariant_ws_onerror id s :
  delays_invariant s -> delays_invariant (ws_onerror id s).
Proof.
  destruct (ws_onerror_frame id s) as (_ & _ & Et & _ & _ & Ea & _).
  unfold delays_invariant. rewrite Et, Ea. tauto.
Qed.

Lemma delays_invariant_timer_fire t s :
  delays_invariant s -> delays_invariant (timer_fire t s).
Proof.
  intros Hs. unfold timer_fire. destruct (timers s !! t) as [tm |]; [| exact Hs].
  pose proof (proj1 Hs) as Ha.
  destruct (timer_kind tm); apply delays_invariant_connectToServer;
    revert Hs; apply delays_invariant_sub; cbn; try exact Ha;
    intros t' tm' E; apply lookup_delete_Some in E as [_ E]; exact E.
Qed.

Lemma delays_invariant_setPiIP ip s :
  delays_invariant s -> delays_invariant (setPiIP ip s).
Proof.
  intros Hs. unfold setPiIP, effect_connect. destruct (decide _); [exact Hs |].
  assert (H : delays_invariant (effect_cleanup (set_piIP ip s))).
  { unfold effect_cleanup.
    apply delays_invariant_close_current, delays_invariant_clear_reconnect.
    exact Hs. }
  destruct (_ && _); [apply delays_invariant_connectToServer, H | exact H].
Qed.

Lemma delays_invariant_handleSaveSettings tempIP s :
  delays_invariant s -> delays_invariant (handleSaveSettings tempIP s).
Proof.
  intros Hs. unfold handleSaveSettings.
  destruct (trim tempIP) as [| c r]; [exact Hs |].
  cbn. apply delays_invariant_setPiIP.
  destruct (delays_invariant_close_current _
              (delays_invariant_clear_reconnect s Hs)) as [_ H].
  split; cbn; [lia |].
  intros t tm E. apply lookup_insert_Some in E as [[_ <-] | [_ E]];
    [reflexivity | apply (H t), E].
Qed.

Lemma delays_invariant_step e s : delays_invariant s -> delays_invariant (step e s).
Proof.
  intros Hs. pose proof (proj1 Hs) as Ha. destruct e; cbn [step].
  - unfold loadSavedIP. destruct saved as [[| c r] |]; try exact Hs.
    apply delays_invariant_setPiIP, Hs.
  - apply delays_invariant_handleSaveSettings, Hs.
  - apply delays_invariant_timer_fire, Hs.
  - apply delays_invariant_ws_onopen, Hs.
  - apply delays_invariant_ws_onclose, Hs.
  - apply delays_invariant_ws_onerror, Hs.
  - unfold handleThrottleChange, sendCommand;
      repeat (case_match; cbn; try exact Hs).
  - unfold handleBrakeChange, sendCommand;
      repeat (case_match; cbn; try exact Hs).
  - unfold handleSteeringChange, sendCommand;
      repeat (case_match; cbn; try exact Hs).
  - unfold handleHonkPress, sendCommand;
      repeat (case_match; cbn; try exact Hs).
  - unfold handleHonkRelease, sendCommand;
      repeat (case_match; cbn; try exact Hs).
  - unfold setGear, settings_effect;
      repeat (case_match; cbn; try exact Hs).
  - unfold toggleLights, settings_effect;
      repeat (case_match; cbn; try exact Hs).
  - unfold toggleAuto, settings_effect;
      repeat (case_match; cbn; try exact Hs).
Qed.

Lemma delays_invariant_thrown c ip s :
  delays_invariant (connectToServer ip s) ->
  delays_invariant (connectToServer_with c ip s).
Proof.
  destruct c; [exact (fun H => H) |].
  unfold connectToServer, connectToServer_with.
  destruct (isBlank ip); [exact (fun H => H) |].
  destruct (current_readyState s) as [[]|]; try exact (fun H => H);
    (destruct (reconnectTimeoutRef s); [exact (fun H => H) |]);
    intros [Ha H]; (split; [exact Ha | exact H]).
Qed.

Lemma delays_invariant_step_with c e s :
  delays_invariant s -> delays_invariant (step_with c e s).
Proof.
  intros Hs. pose proof (delays_invariant_step e s Hs) as H.
  destruct (step_with_shape c e s) as [-> | (ip & s0 & E & ->)]; [exact H |].
  apply delays_invariant_thrown. rewrite <- E. exact H.
Qed.

Lemma reachable_delays_invariant s : reachable s -> delays_invariant s.
Proof.
  induction 1 as [| e s _ IH | c e s _ IH];
    [| apply delays_invariant_step, IH | apply delays_invariant_step_with, IH].
  split; [cbn; lia |]. intros t tm E. cbn in E.
  rewrite lookup_empty in E. discriminate.
Qed.

(** Property X14.  In every reachable state the attempt count is not
    negative, and every pending reconnect timer waits 3000, 5000, 7000,
    9000 or 11000 ms: the cap of 15000 ms is never reached, because a
    reconnect is only scheduled below five attempts. *)
Theorem X14_reconnect_delays (s : App) (t : nat) (tm : Timer) :
  reachable s -> timers s !! t = Some tm -> timer_kind tm = ReconnectTimer ->
  0 <= connectionAttempts s
  /\ timer_delay tm ∈ [3000; 5000; 7000; 9000; 11000]
  /\ timer_delay tm < 15000.
Proof.
  intros Hs Ht Hk. destruct (reachable_delays_invariant s Hs) as [Ha H].
  specialize (H t tm Ht). rewrite Hk in H. destruct H as (a & Hrange & Hd).
  split; [exact Ha |]. split; [| lia].
  assert (a = 0 \/ a = 1 \/ a = 2 \/ a = 3 \/ a = 4) as Hcases by lia.
  rewrite Hd. rewrite !elem_of_cons.
  destruct Hcases as [-> | [-> | [-> | [-> | ->]]]]; cbn; auto 10.
Qed.

Lemma X14_reconnect_delays_witness :
  0 <= connectionAttempts (ws_onclose 0 1006 first_attempt_sample)
  /\ 5000 ∈ [3000; 5000; 7000; 9000; 11000]
  /\ 5000 < 15000.
Proof.
  assert (Hr : reachable (ws_onclose 0 1006 first_attempt_sample)).
  { apply (reachable_step (SocketCloses 0 1006)).
    apply reachable_run, reachable_initial. }
  apply (X14_reconnect_delays (ws_onclose 0 1006 first_attempt_sample) 1
           {| timer_kind := ReconnectTimer; timer_delay := 5000;
              timer_piIP := str "192.168.1.100" |} Hr);
    vm_compute; reflexivity.
Defined.

(** ** Start-up *)

(** Property X16.  When the stored address has been read at start-up, it
    becomes [piIP].  If it is not blank, one connection attempt is counted:
    when the constructor returns, one socket to its address is connecting;
    when the constructor throws, there is no socket, the link is shown as
    not connected with the error of the failed creation, and no timer is
    pending, so nothing is tried again.  If the address consists of white
    space only, no attempt is counted and the error asks for an address.
    Without a stored address nothing happens. *)
Theorem X16_startup (c : Construction) (ip : jsstring) :
  ip <> [] ->
  let s := loadSavedIP_with c (Some ip) initial in
  piIP s = ip
  /\ (isBlank ip = false ->
      connectionAttempts s = 1
      /\ reconnectTimeoutRef s = None
      /\ timers s = ∅
      /\ match c with
         | Returns =>
             connecting s /\ wsRef s = Some 0%nat
             /\ sockets s = [{| readyState := CONNECTING;
                                socket_url := controlUrl ip;
                                socket_piIP := ip |}]
         | Throws =>
             sockets s = [] /\ wsRef s = None /\ isConnected s = false
             /\ connectionError s = FailedToCreateConnection
         end)
  /\ (isBlank ip = true ->
      sockets s = [] /\ connectionAttempts s = 0
      /\ connectionError s = PleaseSetIP)
  /\ loadSavedIP_with c None initial = initial
  /\ loadSavedIP_with c (Some []) initial = initial.
Proof.
  intros Hne s.
  assert (Hs : s = connectToServer_with c ip (set_piIP ip initial)).
  { subst s. destruct ip as [| a r]; [congruence |].
    unfold loadSavedIP_with, setPiIP_with. case_decide; [discriminate |].
    reflexivity. }
  split; [| split; [| split]].
  - rewrite Hs. unfold connectToServer_with.
    destruct (isBlank ip); [reflexivity |]. cbn. destruct c; reflexivity.
  - intros Hb. rewrite Hs. destruct c.
    + change (connectToServer_with Returns ip (set_piIP ip initial))
        with (connectToServer ip (set_piIP ip initial)).
      rewrite connectToServer_attempt
        by (try exact Hb; reflexivity || discriminate).
      repeat split.
    + rewrite connectToServer_thrown_attempt
        by (try exact Hb; reflexivity || discriminate).
      repeat split.
  - intros Hb. rewrite Hs. unfold connectToServer_with. rewrite Hb.
    repeat split.
  - split; reflexivity.
Qed.

Lemma X16_startup_witness :
  connecting (loadSavedIP_with Returns (Some (str "192.168.1.100")) initial)
  /\ connectionAttempts
       (loadSavedIP_with Returns (Some (str "192.168.1.100")) initial) = 1
  /\ sockets (loadSavedIP_with Throws (Some (str "[::1")) initial) = []
  /\ connectionError (loadSavedIP_with Throws (Some (str "[::1")) initial)
     = FailedToCreateConnection.
Proof.
  destruct (X16_startup Returns (str "192.168.1.100")) as (_ & H & _);
    [discriminate |].
  destruct H as (H2 & _ & _ & H1 & _); [reflexivity |].
  destruct (X16_startup Throws (str "[::1")) as (_ & H' & _);
    [discriminate |].
  destruct H' as (_ & _ & _ & H3 & _ & _ & H4); [reflexivity |].
  repeat match goal with |- _ /\ _ => split end; assumption.
Defined.
